(** * ggshield user configuration: load, migrate, merge and save

    A shallow embedding of [ggshield/core/config/user_config.py]: the
    [SecretConfig], [IaCConfig], [UserConfig] and [UserV1Config] dataclasses,
    the version dispatch of [_update_from_file], the version-1 migrator
    [load_v1] and the default-diff [save].  Parsed YAML is an untyped tree;
    Python dictionaries are association lists in insertion order; Python
    sets of strings are [gset string]; exceptions, console warnings, the
    files on disk and the [UserConfig] object a method runs on are threaded
    through a small state-and-exception monad. *)

From stdpp Require Import base option list strings gmap.

Open Scope Z_scope.

Set Default Proof Using "Type".

(** ** Parsed YAML documents *)

#[local] Unset Elimination Schemes.

Inductive yaml :=
| YNull
| YBool (b : bool)
| YInt (z : Z)
| YStr (s : string)
| YList (l : list yaml)
| YDict (d : list (string * yaml)).

#[local] Set Elimination Schemes.

(** A Python [dict] with string keys: an association list with distinct keys,
    kept in insertion order. *)
Abbreviation dict := (list (string * yaml)) (only parsing).

(** Structural equality of two documents. *)
Fixpoint yaml_eqb (a b : yaml) {struct a} : bool :=
  match a, b with
  | YNull, YNull => true
  | YBool x, YBool y => bool_decide (x = y)
  | YInt x, YInt y => bool_decide (x = y)
  | YStr x, YStr y => bool_decide (x = y)
  | YList l, YList m =>
      (fix go (l m : list yaml) : bool :=
         match l, m with
         | [], [] => true
         | x :: l', y :: m' => yaml_eqb x y && go l' m'
         | _, _ => false
         end) l m
  | YDict l, YDict m =>
      (fix go (l m : dict) : bool :=
         match l, m with
         | [], [] => true
         | (k, x) :: l', (k', y) :: m' =>
             bool_decide (k = k') && yaml_eqb x y && go l' m'
         | _, _ => false
         end) l m
  | _, _ => false
  end.

(** [d.get(key)] / [d[key]] *)
Fixpoint dict_get (key : string) (d : dict) : option yaml :=
  match d with
  | [] => None
  | (k, v) :: d' => if decide (k = key) then Some v else dict_get key d'
  end.

(** [key in d] *)
Definition dict_mem (key : string) (d : dict) : bool :=
  bool_decide (is_Some (dict_get key d)).

(** [del d[key]] *)
Fixpoint dict_del (key : string) (d : dict) : dict :=
  match d with
  | [] => []
  | (k, v) :: d' => if decide (k = key) then dict_del key d' else (k, v) :: dict_del key d'
  end.

(** [d.pop(key)]: the value and the dictionary without the key, [None] when
    Python raises [KeyError]. *)
Definition dict_pop (key : string) (d : dict) : option (yaml * dict) :=
  v ← dict_get key d; Some (v, dict_del key d).

(** [d[key] = v]: an existing key keeps its position, a new key goes last. *)
Fixpoint dict_set (key : string) (v : yaml) (d : dict) : dict :=
  match d with
  | [] => [(key, v)]
  | (k, x) :: d' => if decide (k = key) then (k, v) :: d' else (k, x) :: dict_set key v d'
  end.

(** Python truth value of a parsed scalar or collection. *)
Definition py_truthy (v : yaml) : bool :=
  match v with
  | YNull => false
  | YBool b => b
  | YInt z => negb (bool_decide (z = 0))
  | YStr s => negb (bool_decide (s = ""))
  | YList l => negb (bool_decide (l = []))
  | YDict d => negb (bool_decide (d = []))
  end.

(** Python [v == n] for an integer literal [n]: [True == 1] and [False == 0]
    hold, every other non-integer differs from every integer. *)
Definition py_eq_int (v : yaml) (n : Z) : bool :=
  match v with
  | YInt z => bool_decide (z = n)
  | YBool b => bool_decide ((if b then 1 else 0) = n)
  | _ => false
  end.

(** ** Exceptions and effects *)

Inductive exn :=
| ValidationError (field_path : list string)
    (* marshmallow.ValidationError, with the path of the offending field *)
| ParseError (config_path : string) (field_path : list string)
    (* ggshield ParseError: "Error in {config_path}:\n{message}" *)
| ClickException (config_version : yaml)
    (* "Don't know how to load config version {config_version}" *)
| TypeError
| RuntimeError
| ExternalError (origin : string).
    (* an exception raised inside a collaborator defined outside this module *)

Inductive result (A : Type) :=
| Ok (a : A)
| Raise (e : exn).
Arguments Ok {A} a.
Arguments Raise {A} e.

#[global] Instance result_ret : MRet result := λ A a, Ok a.
#[global] Instance result_bind : MBind result := λ A B f r,
  match r with Ok a => f a | Raise e => Raise e end.
#[global] Instance result_fmap : FMap result := λ A B f r,
  match r with Ok a => Ok (f a) | Raise e => Raise e end.

(** A computation over a state [S] that returns or raises. *)
Definition M (S A : Type) : Type := S → result A * S.

#[global] Instance M_ret {S} : MRet (M S) := λ A a s, (Ok a, s).
#[global] Instance M_bind {S} : MBind (M S) := λ A B f c s,
  match c s with
  | (Ok a, s') => f a s'
  | (Raise e, s') => (Raise e, s')
  end.

Definition raise {S A} (e : exn) : M S A := λ s, (Raise e, s).
Definition lift {S A} (r : result A) : M S A := λ s, (r, s).

(** [try: c except ValidationError as exc: raise handler(exc)] *)
Definition except_ValidationError {S A} (c : M S A) (handler : list string → exn) : M S A :=
  λ s, match c s with
       | (Raise (ValidationError p), s') => (Raise (handler p), s')
       | r => r
       end.

(** [for x in xs: f(x)] collecting the results, stopping at the first raise. *)
Fixpoint traverse {A B} (f : A → result B) (xs : list A) : result (list B) :=
  match xs with
  | [] => Ok []
  | x :: xs' => y ← f x; ys ← traverse f xs'; Ok (y :: ys)
  end.

(** The console: warnings in the order they were displayed. *)
Abbreviation console := (list string) (only parsing).

(** Modelled from the spec: [display_warning] of ggshield.core.text_utils,
    which is not among these sources.  Warnings go to the ambient output and
    do not stop processing; here the message is added to the console. *)
Definition display_warning (message : string) : M console unit :=
  λ out, (Ok tt, out ++ [message]).

(** ** The configuration dataclasses *)

(** ggshield.core.types.IgnoredMatch is declared outside this module; the
    code reads it through [match["name"]] and [match["match"]] and builds it
    as [{"name": ..., "match": ...}]. *)
Record IgnoredMatch := mkIgnoredMatch {
  name : string;
  match_ : string
}.

Record SecretConfig := mkSecretConfig {
  show_secrets : bool;
  ignored_detectors : gset string;
  ignored_matches : list IgnoredMatch;
  ignored_paths : gset string
}.

Record IaCConfig := mkIaCConfig {
  iac_ignored_paths : gset string;
  ignored_policies : gset string;
  minimum_severity : string
}.

Record UserConfig := mkUserConfig {
  iac : IaCConfig;
  instance : option string;
  exit_zero : bool;
  verbose : bool;
  allow_self_signed : bool;
  max_commits_for_hook : Z;
  secret : SecretConfig
}.

Record UserV1Config := mkUserV1Config {
  v1_instance : option string;
  all_policies : bool;
  v1_exit_zero : bool;
  matches_ignore : list IgnoredMatch;
  paths_ignore : gset string;
  v1_verbose : bool;
  v1_allow_self_signed : bool;
  v1_max_commits_for_hook : Z;
  ignore_default_excludes : bool;
  v1_show_secrets : bool;
  banlisted_detectors : gset string
}.

Definition CURRENT_CONFIG_VERSION : Z := 2.

(** The dataclass defaults: [SecretConfig()], [IaCConfig()], [UserConfig()]
    and [UserV1Config()].  [SecretConfig.__post_init__] loops over an empty
    list there. *)
Definition SecretConfig_default : SecretConfig :=
  mkSecretConfig false ∅ [] ∅.

Definition IaCConfig_default : IaCConfig :=
  mkIaCConfig ∅ ∅ "LOW".

Definition UserConfig_default : UserConfig :=
  mkUserConfig IaCConfig_default None false false false 50 SecretConfig_default.

(** ** SecretConfig.add_ignored_match *)

(** The [for] loop: [Some l] when the loop met an entry with the same hash
    and returned, [l] being the list after the possible naming; [None] when
    the loop ran to its end. *)
Fixpoint add_ignored_match_loop (matches : list IgnoredMatch) (secret : IgnoredMatch)
  : option (list IgnoredMatch) :=
  match matches with
  | [] => None
  | m :: rest =>
      if decide (match_ m = match_ secret) then
        (* [not match["name"]]: the empty string is the only falsy string *)
        if decide (name m = "") then
          Some (mkIgnoredMatch (name secret) (match_ m) :: rest)
        else Some (m :: rest)
      else cons m <$> add_ignored_match_loop rest secret
  end.

Definition add_ignored_match (self : SecretConfig) (secret : IgnoredMatch) : SecretConfig :=
  match add_ignored_match_loop (ignored_matches self) secret with
  | Some matches => mkSecretConfig (show_secrets self) (ignored_detectors self)
                      matches (ignored_paths self)
  | None => mkSecretConfig (show_secrets self) (ignored_detectors self)
              (ignored_matches self ++ [secret]) (ignored_paths self)
  end.

(** At most one entry per match hash. *)
Definition unique_matches (matches : list IgnoredMatch) : Prop :=
  NoDup (match_ <$> matches).

(** ** The files and the process state *)

(** What a path holds: text that is not YAML, or a parsed document (the
    empty document for an empty file). *)
Inductive file :=
| InvalidSyntax
| Yaml (document : dict).

Record state := mkState {
  st_self : UserConfig;          (* the UserConfig object a method runs on *)
  st_files : gmap string file;   (* the files that exist, by path *)
  st_console : console
}.

Definition get_self : M state UserConfig := λ s, (Ok (st_self s), s).
Definition set_self (u : UserConfig) : M state unit :=
  λ s, (Ok tt, mkState u (st_files s) (st_console s)).

(** Run a computation that only touches the console. *)
Definition on_console {A} (c : M console A) : M state A :=
  λ s, let '(r, out) := c (st_console s) in (r, mkState (st_self s) (st_files s) out).

(** [os.path.exists] *)
Definition os_path_exists (path : string) : M state bool :=
  λ s, (Ok (bool_decide (is_Some (st_files s !! path))), s).

(** Modelled from the spec: [load_yaml] of ggshield.core.config.utils, which
    is not among these sources.  It fails with a ParseError-class error when
    the file exists but is not valid YAML and returns an empty or absent
    document for an empty file; a missing file is no error. *)
Definition load_yaml (path : string) : M state (option dict) :=
  λ s, match st_files s !! path with
       | None => (Ok None, s)
       | Some InvalidSyntax => (Raise (ParseError path []), s)
       | Some (Yaml document) => (Ok (Some document), s)
       end.

(** Modelled from the spec: [save_yaml] of ggshield.core.config.utils, which
    is not among these sources.  It writes the document to the path. *)
Definition save_yaml (dct : dict) (path : string) : M state unit :=
  λ s, (Ok tt, mkState (st_self s) (<[path := Yaml dct]> (st_files s)) (st_console s)).

(** ** The marshmallow schemas

    [marshmallow_dataclass.class_schema] derives one field per dataclass
    attribute, keyed by the attribute's name.  A missing key falls back to
    the dataclass default and only [Optional] fields accept null.  String,
    list and nested fields take values of their own YAML type only; the
    Boolean field also takes the strings and numbers marshmallow counts as
    true or false, and the Integer field the strings Python's [int] reads.
    The first offending field, in declaration order, is the one reported.  What a schema does
    with a key it does not declare is left open: everything below holds
    for a schema that rejects such keys and for one that drops them. *)

Inductive unknown_policy := RAISE | EXCLUDE.

Definition invalid {A} : result A := Raise (ValidationError []).

(** Qualify a validation error with the field it was found under. *)
Definition in_field {A} (key : string) (r : result A) : result A :=
  match r with
  | Raise (ValidationError p) => Raise (ValidationError (key :: p))
  | _ => r
  end.

(** [fields.Boolean.truthy] and [fields.Boolean.falsy], the numbers 1 and 0
    apart. *)
Definition Boolean_truthy : list string :=
  ["t"; "T"; "true"; "True"; "TRUE"; "on"; "On"; "ON"; "y"; "Y"; "yes"; "Yes"; "YES"; "1"].

Definition Boolean_falsy : list string :=
  ["f"; "F"; "false"; "False"; "FALSE"; "off"; "Off"; "OFF"; "n"; "N"; "no"; "No"; "NO";
   "0"].

(** [fields.Boolean]: a boolean, or a value found in [truthy] or [falsy];
    lists and mappings are unhashable there and are refused. *)
Definition load_Boolean (v : yaml) : result bool :=
  match v with
  | YBool b => Ok b
  | YInt z =>
      if decide (z = 1) then Ok true
      else if decide (z = 0) then Ok false
      else invalid
  | YStr s =>
      if decide (s ∈ Boolean_truthy) then Ok true
      else if decide (s ∈ Boolean_falsy) then Ok false
      else invalid
  | _ => invalid
  end.

Definition load_String (v : yaml) : result string :=
  match v with YStr s => Ok s | _ => invalid end.

Definition load_Optional_String (v : yaml) : result (option string) :=
  match v with YNull => Ok None | YStr s => Ok (Some s) | _ => invalid end.

Definition load_List {A} (load_item : yaml → result A) (v : yaml) : result (list A) :=
  match v with YList l => traverse load_item l | _ => invalid end.

Definition load_Set_String (v : yaml) : result (gset string) :=
  list_to_set <$> load_List load_String v.

Definition load_Nested {A} (load : dict → result A) (v : yaml) : result A :=
  match v with YDict d => load d | _ => invalid end.

(** A field with a default: absent keys take the default. *)
Definition load_field {A} (key : string) (load_value : yaml → result A) (dflt : A)
    (data : dict) : result A :=
  match dict_get key data with
  | Some v => in_field key (load_value v)
  | None => Ok dflt
  end.

(** A field without a default. *)
Definition load_required {A} (key : string) (load_value : yaml → result A)
    (data : dict) : result A :=
  match dict_get key data with
  | Some v => in_field key (load_value v)
  | None => Raise (ValidationError [key])
  end.

Definition dump_Set_String (s : gset string) : yaml := YList (YStr <$> elements s).

Definition dump_Optional_String (o : option string) : yaml :=
  match o with Some s => YStr s | None => YNull end.

Definition dump_IgnoredMatch (m : IgnoredMatch) : yaml :=
  YDict [("name", YStr (name m)); ("match", YStr (match_ m))].

Definition dump_IaCConfig (c : IaCConfig) : dict :=
  [("ignored_paths", dump_Set_String (iac_ignored_paths c));
   ("ignored_policies", dump_Set_String (ignored_policies c));
   ("minimum_severity", YStr (minimum_severity c))].

Definition dump_SecretConfig (c : SecretConfig) : dict :=
  [("show_secrets", YBool (show_secrets c));
   ("ignored_detectors", dump_Set_String (ignored_detectors c));
   ("ignored_matches", YList (dump_IgnoredMatch <$> ignored_matches c));
   ("ignored_paths", dump_Set_String (ignored_paths c))].

(** [UserConfigSchema().dump]: one key per attribute, in declaration order. *)
Definition dump_UserConfig (c : UserConfig) : dict :=
  [("iac", YDict (dump_IaCConfig (iac c)));
   ("instance", dump_Optional_String (instance c));
   ("exit_zero", YBool (exit_zero c));
   ("verbose", YBool (verbose c));
   ("allow_self_signed", YBool (allow_self_signed c));
   ("max_commits_for_hook", YInt (max_commits_for_hook c));
   ("secret", YDict (dump_SecretConfig (secret c)))].

Definition IgnoredMatch_fields : list string := ["name"; "match"].
Definition IaCConfig_fields : list string :=
  ["ignored_paths"; "ignored_policies"; "minimum_severity"].
Definition SecretConfig_fields : list string :=
  ["show_secrets"; "ignored_detectors"; "ignored_matches"; "ignored_paths"].
Definition UserConfig_fields : list string :=
  ["iac"; "instance"; "exit_zero"; "verbose"; "allow_self_signed";
   "max_commits_for_hook"; "secret"].
Definition UserV1Config_fields : list string :=
  ["instance"; "all_policies"; "exit_zero"; "matches_ignore"; "paths_ignore";
   "verbose"; "allow_self_signed"; "max_commits_for_hook";
   "ignore_default_excludes"; "show_secrets"; "banlisted_detectors"].

(** ** Default-diff pruning *)

(** The loop over the items of a mapping, and the comparison of one value
    with the reference value; both belong to [remove_common_dict_items]
    below. *)

Definition remove_common_with (prune : yaml → yaml → option yaml) (reference : dict)
  : dict → dict :=
  fix go (dct : dict) : dict :=
    match dct with
    | [] => []
    | (key, value) :: rest =>
        match dict_get key reference with
        | Some reference_value =>
            match prune value reference_value with
            | Some value' => (key, value') :: go rest
            | None => go rest
            end
        | None => (key, value) :: go rest
        end
    end.

(** What is left of a value next to the reference value at the same path:
    [None] when nothing is. *)
Fixpoint prune_value (value reference : yaml) {struct value} : option yaml :=
  match value, reference with
  | YDict dct, YDict reference_dct =>
      match remove_common_with prune_value reference_dct dct with
      | [] => None
      | dct' => Some (YDict dct')
      end
  | _, _ => if yaml_eqb value reference then None else Some value
  end.

(** Modelled from the spec: [remove_common_dict_items] of
    ggshield.core.config.utils, which is not among these sources.  It removes
    from the document every key whose value is structurally equal to the
    reference document's value at the same path, recursing into nested
    mappings; a nested mapping that becomes empty is dropped. *)
Definition remove_common_dict_items (dct reference_dct : dict) : dict :=
  remove_common_with prune_value reference_dct dct.

(** ** Merging a loaded instance onto the accumulator *)

(** The recursion of [update_from_other_instance], below, into the two
    nested dataclasses. *)

Definition update_IaCConfig (dst src : IaCConfig) : IaCConfig :=
  mkIaCConfig (iac_ignored_paths src) (ignored_policies src) (minimum_severity src).

Definition update_SecretConfig (dst src : SecretConfig) : SecretConfig :=
  mkSecretConfig (show_secrets src) (ignored_detectors src) (ignored_matches src)
    (ignored_paths src).

(** Modelled from the spec: [update_from_other_instance] of
    ggshield.core.config.utils, which is not among these sources.  For every
    declared field of UserConfig, recursively into SecretConfig and
    IaCConfig, it copies the value from the loaded instance onto the
    accumulator, unconditionally. *)
Definition update_from_other_instance (dst src : UserConfig) : UserConfig :=
  mkUserConfig (update_IaCConfig (iac dst) (iac src)) (instance src) (exit_zero src)
    (verbose src) (allow_self_signed src) (max_commits_for_hook src)
    (update_SecretConfig (secret dst) (secret src)).

(** ** Sample collaborators, used to run the module on concrete documents *)

(** Modelled from the spec: [api_to_dashboard_url] of ggshield.core.utils,
    which is not among these sources.  It converts an API endpoint URL into
    the corresponding dashboard base URL and, asked to warn, emits a
    deprecation warning.  Only the public endpoint is covered here. *)
Definition saas_api_to_dashboard_url (api_url : yaml) (warn : bool)
  : option string * list string :=
  match api_url with
  | YStr url =>
      if decide (url = "https://api.gitguardian.com") then
        (Some "https://dashboard.gitguardian.com",
         if warn then ["api_url is deprecated, use instance instead."] else [])
      else (None, [])
  | _ => (None, [])
  end.

Definition sample_global_path (filename : string) : string := "~/" +:+ filename.

(** A reading of plain decimal literals with an optional sign.  Python's
    [int] reads these the same way and accepts more (surrounding blanks,
    underscores between digits, digits of other scripts). *)
Fixpoint decimal_value (acc : Z) (digits : string) : option Z :=
  match digits with
  | EmptyString => Some acc
  | String c rest =>
      let n := Z.of_N (Ascii.N_of_ascii c) - 48 in
      if bool_decide (0 ≤ n ≤ 9) then decimal_value (10 * acc + n) rest else None
  end.

Definition decimal_int_of_str (s : string) : option Z :=
  match s with
  | EmptyString => None
  | String c digits =>
      if decide (String c EmptyString = "-") then
        if decide (digits = "") then None else Z.opp <$> decimal_value 0 digits
      else if decide (String c EmptyString = "+") then
        if decide (digits = "") then None else decimal_value 0 digits
      else decimal_value 0 s
  end.

Section UserConfigModule.

(** The schema's policy on keys it does not declare. *)
Variable unknown : unknown_policy.

(** Python's [int] on a string: [None] when it raises ValueError. *)
Variable int_of_str : string → option Z.

(** ggshield.core.types.post_init_ignored_match, defined outside this module:
    the entry as the call leaves it, [None] when the call raises. *)
Variable post_init_ignored_match : IgnoredMatch → option IgnoredMatch.

(** ggshield.core.utils.api_to_dashboard_url, defined outside this module:
    the URL it returns ([None] when the call raises) and the warnings it
    displays. *)
Variable api_to_dashboard_url : yaml → bool → option string * list string.

(** ggshield.core.constants and ggshield.core.config.utils.get_global_path,
    defined outside this module. *)
Variable GLOBAL_CONFIG_FILENAMES : list string.
Variable get_global_path : string → string.
Variable LOCAL_CONFIG_PATHS : list string.
Variable DEFAULT_LOCAL_CONFIG_PATH : string.

(** [fields.Integer] (not strict): an integer, or a string [int] reads;
    booleans are refused. *)
Definition load_Integer (v : yaml) : result Z :=
  match v with
  | YInt z => Ok z
  | YStr s => match int_of_str s with Some z => Ok z | None => invalid end
  | _ => invalid
  end.

Definition check_unknown (declared : list string) (data : dict) : result unit :=
  match unknown with
  | EXCLUDE => Ok tt
  | RAISE =>
      match filter (λ kv : string * yaml, kv.1 ∉ declared) data with
      | [] => Ok tt
      | (key, _) :: _ => Raise (ValidationError [key])
      end
  end.

Definition load_IgnoredMatch (v : yaml) : result IgnoredMatch :=
  match v with
  | YDict data =>
      name_ ← load_required "name" load_String data;
      match__ ← load_required "match" load_String data;
      check_unknown IgnoredMatch_fields data;;
      Ok (mkIgnoredMatch name_ match__)
  | _ => invalid
  end.

(** [SecretConfig.__post_init__] *)
Definition SecretConfig_post_init (self : SecretConfig) : result SecretConfig :=
  matches ← traverse
    (λ m, match post_init_ignored_match m with
          | Some m' => Ok m'
          | None => Raise (ExternalError "post_init_ignored_match")
          end)
    (ignored_matches self);
  Ok (mkSecretConfig (show_secrets self) (ignored_detectors self) matches
        (ignored_paths self)).

Definition IaCConfigSchema_load (data : dict) : result IaCConfig :=
  ignored_paths_ ← load_field "ignored_paths" load_Set_String ∅ data;
  ignored_policies_ ← load_field "ignored_policies" load_Set_String ∅ data;
  minimum_severity_ ← load_field "minimum_severity" load_String "LOW" data;
  check_unknown IaCConfig_fields data;;
  Ok (mkIaCConfig ignored_paths_ ignored_policies_ minimum_severity_).

Definition SecretConfigSchema_load (data : dict) : result SecretConfig :=
  show_secrets_ ← load_field "show_secrets" load_Boolean false data;
  ignored_detectors_ ← load_field "ignored_detectors" load_Set_String ∅ data;
  ignored_matches_ ← load_field "ignored_matches" (load_List load_IgnoredMatch) [] data;
  ignored_paths_ ← load_field "ignored_paths" load_Set_String ∅ data;
  check_unknown SecretConfig_fields data;;
  SecretConfig_post_init
    (mkSecretConfig show_secrets_ ignored_detectors_ ignored_matches_ ignored_paths_).

(** [UserConfigSchema().load] *)
Definition UserConfigSchema_load (data : dict) : result UserConfig :=
  iac_ ← load_field "iac" (load_Nested IaCConfigSchema_load) IaCConfig_default data;
  instance_ ← load_field "instance" load_Optional_String None data;
  exit_zero_ ← load_field "exit_zero" load_Boolean false data;
  verbose_ ← load_field "verbose" load_Boolean false data;
  allow_self_signed_ ← load_field "allow_self_signed" load_Boolean false data;
  max_commits_for_hook_ ← load_field "max_commits_for_hook" load_Integer 50 data;
  secret_ ← load_field "secret" (load_Nested SecretConfigSchema_load)
              SecretConfig_default data;
  check_unknown UserConfig_fields data;;
  Ok (mkUserConfig iac_ instance_ exit_zero_ verbose_ allow_self_signed_
        max_commits_for_hook_ secret_).

(** [UserV1ConfigSchema().load] *)
Definition UserV1ConfigSchema_load (data : dict) : result UserV1Config :=
  instance_ ← load_field "instance" load_Optional_String None data;
  all_policies_ ← load_field "all_policies" load_Boolean false data;
  exit_zero_ ← load_field "exit_zero" load_Boolean false data;
  matches_ignore_ ← load_field "matches_ignore" (load_List load_IgnoredMatch) [] data;
  paths_ignore_ ← load_field "paths_ignore" load_Set_String ∅ data;
  verbose_ ← load_field "verbose" load_Boolean false data;
  allow_self_signed_ ← load_field "allow_self_signed" load_Boolean false data;
  max_commits_for_hook_ ← load_field "max_commits_for_hook" load_Integer 50 data;
  ignore_default_excludes_ ← load_field "ignore_default_excludes" load_Boolean false data;
  show_secrets_ ← load_field "show_secrets" load_Boolean false data;
  banlisted_detectors_ ← load_field "banlisted_detectors" load_Set_String ∅ data;
  check_unknown UserV1Config_fields data;;
  Ok (mkUserV1Config instance_ all_policies_ exit_zero_ matches_ignore_ paths_ignore_
        verbose_ allow_self_signed_ max_commits_for_hook_ ignore_default_excludes_
        show_secrets_ banlisted_detectors_).

(** ** UserV1Config: the version-1 migrator *)

(** One step of the loop of [update_matches_ignore]: a bare hash becomes
    [{"name": "", "match": hash}], anything else stays. *)
Definition convert_match (entry : yaml) : yaml :=
  match entry with
  | YStr hash => YDict [("name", YStr ""); ("match", YStr hash)]
  | _ => entry
  end.

(** [UserV1Config.update_matches_ignore].  The list stored under
    [matches_ignore] is rewritten in place, so the key keeps its position in
    [data].  A truthy value that is not a list makes the loop raise: a
    string refuses item assignment, a mapping changes size while it is
    iterated over, a number is not iterable. *)
Definition update_matches_ignore (data : dict) : result dict :=
  match dict_get "matches_ignore" data with
  | None => Ok data
  | Some matches_ignore =>
      if negb (py_truthy matches_ignore) then Ok data
      else match matches_ignore with
           | YList entries =>
               Ok (dict_set "matches_ignore" (YList (convert_match <$> entries)) data)
           | YDict _ => Raise RuntimeError
           | _ => Raise TypeError
           end
  end.

Definition call_api_to_dashboard_url (api_url : yaml) (warn : bool) : M console string :=
  λ out, match api_to_dashboard_url api_url warn with
         | (Some url, warnings) => (Ok url, out ++ warnings)
         | (None, warnings) => (Raise (ExternalError "api_to_dashboard_url"), out ++ warnings)
         end.

Definition all_policies_warning : string :=
  "The `all_policies` option has been deprecated and is now ignored.".

Definition ignore_default_excludes_warning : string :=
  "The `ignore_default_exclude` option has been deprecated and is now ignored.".

(** The first step of [load_v1]: turn an [api_url] key into an [instance]
    key, unless there is an [instance] key already. *)
Definition migrate_api_url (data : dict) : M console dict :=
  match dict_pop "api_url" data with
  | None => mret data
  | Some (api_url, data) =>
      if dict_mem "instance" data then mret data
      else
        url ← call_api_to_dashboard_url api_url true;
        mret (dict_set "instance" (YStr url) data)
  end.

(** [UserV1Config.load_v1] *)
Definition load_v1 (data : dict) : M console UserConfig :=
  data ← migrate_api_url data;
  data ← lift (update_matches_ignore data);
  v1config ← lift (UserV1ConfigSchema_load data);
  (if all_policies v1config then display_warning all_policies_warning else mret tt);;
  (if ignore_default_excludes v1config
   then display_warning ignore_default_excludes_warning else mret tt);;
  secret_ ← lift (SecretConfig_post_init
                    (mkSecretConfig (v1_show_secrets v1config)
                       (banlisted_detectors v1config)
                       (matches_ignore v1config)
                       (paths_ignore v1config)));
  mret (mkUserConfig IaCConfig_default (v1_instance v1config) (v1_exit_zero v1config)
          (v1_verbose v1config) (v1_allow_self_signed v1config)
          (v1_max_commits_for_hook v1config) secret_).

(** ** UserConfig: load and save *)

Definition deprecated_format_warning (config_path : string) : string :=
  config_path +:+ " uses a deprecated configuration file format."
              +:+ " Follow the instructions from ggshield README.md to update it.".

(** [load_yaml(config_path) or {"version": CURRENT_CONFIG_VERSION}]: an absent
    document and the empty document are both falsy. *)
Definition or_current_version (loaded : option dict) : dict :=
  match loaded with
  | Some (item :: items) => item :: items
  | _ => [("version", YInt CURRENT_CONFIG_VERSION)]
  end.

(** [data.pop("version", 1)] *)
Definition pop_version (data : dict) : yaml * dict :=
  match dict_pop "version" data with
  | Some (config_version, data') => (config_version, data')
  | None => (YInt 1, data)
  end.

(** The body of the [try] block of [_update_from_file]. *)
Definition load_versioned (config_path : string) (config_version : yaml) (data : dict)
  : M state UserConfig :=
  if py_eq_int config_version 2 then lift (UserConfigSchema_load data)
  else if py_eq_int config_version 1 then
    on_console (display_warning (deprecated_format_warning config_path));;
    on_console (load_v1 data)
  else raise (ClickException config_version).

(** [UserConfig._update_from_file] *)
Definition _update_from_file (config_path : string) : M state unit :=
  loaded ← load_yaml config_path;
  let '(config_version, data) := pop_version (or_current_version loaded) in
  obj ← except_ValidationError (load_versioned config_path config_version data)
          (ParseError config_path);
  self ← get_self;
  set_self (update_from_other_instance self obj).

(** The first loop of [load]: the first global file that exists. *)
Fixpoint load_global (filenames : list string) : M state unit :=
  match filenames with
  | [] => mret tt
  | global_config_filename :: rest =>
      let global_config_path := get_global_path global_config_filename in
      found ← os_path_exists global_config_path;
      if (found : bool) then _update_from_file global_config_path
      else load_global rest
  end.

(** The second loop of [load]: the first local file that exists, which also
    becomes [config_path]. *)
Fixpoint load_local (paths : list string) (config_path : option string)
  : M state (option string) :=
  match paths with
  | [] => mret config_path
  | local_config_path :: rest =>
      found ← os_path_exists local_config_path;
      if (found : bool) then
        _update_from_file local_config_path;; mret (Some local_config_path)
      else load_local rest config_path
  end.

(** [if config_path:] on an optional string: [None] and [""] are falsy. *)
Definition path_given (config_path : option string) : option string :=
  match config_path with
  | Some p => if decide (p = "") then None else Some p
  | None => None
  end.

(** [UserConfig.load]; the new [UserConfig()] takes the object slot. *)
Definition load (config_path : option string) : M state (UserConfig * string) :=
  set_self UserConfig_default;;
  match path_given config_path with
  | Some p =>
      _update_from_file p;;
      user_config ← get_self;
      mret (user_config, p)
  | None =>
      load_global GLOBAL_CONFIG_FILENAMES;;
      config_path ← load_local LOCAL_CONFIG_PATHS config_path;
      user_config ← get_self;
      mret (user_config, default DEFAULT_LOCAL_CONFIG_PATH config_path)
  end.

(** The document [save] writes. *)
Definition save_document (self default_ : UserConfig) : dict :=
  let dct := dump_UserConfig self in
  let default_dct := dump_UserConfig default_ in
  let dct := remove_common_dict_items dct default_dct in
  dict_set "version" (YInt CURRENT_CONFIG_VERSION) dct.

(** [UserConfig.save] *)
Definition save (config_path : string) : M state unit :=
  self ← get_self;
  default_ ← lift (UserConfigSchema_load []);
  save_yaml (save_document self default_) config_path.

(** The outcome is not the unsupported-version error of [_update_from_file]. *)
Definition not_ClickException {A} (r : result A) : Prop :=
  ∀ config_version, r ≠ Raise (ClickException config_version).

(** Two version-1 documents that differ at most in [all_policies] and
    [ignore_default_excludes]. *)
Definition same_but_deprecated_flags (data data' : dict) : Prop :=
  ∀ key, key ≠ "all_policies" → key ≠ "ignore_default_excludes" →
    dict_get key data = dict_get key data'.

(** What pruning leaves of a dumped field loads back to the field's value. *)
Definition reloads {A} (load_value : yaml → result A) (dump_value : A → yaml)
    (dflt x : A) : Prop :=
  match prune_value (dump_value x) (dump_value dflt) with
  | None => x = dflt
  | Some v => load_value v = Ok x
  end.

(** An explicit [config_path] is the only file [load] reads: the outcome,
    the loaded object and the console are the same in any two states that
    agree on the file at that path, and the path returned is that path. *)
Definition explicit_path_only (p : string) : Prop :=
  ∀ s1 s2 : state,
    st_files s1 !! p = st_files s2 !! p →
    st_console s1 = st_console s2 →
    (load (Some p) s1).1 = (load (Some p) s2).1 ∧
    st_console (load (Some p) s1).2 = st_console (load (Some p) s2).2 ∧
    ∀ user_config path, (load (Some p) s1).1 = Ok (user_config, path) → path = p.

(** With the explicit path [p], [load] does this and nothing else: it makes
    a new [UserConfig()], runs [_update_from_file] on [p], and returns the
    object with [p]. *)
Definition explicit_path_loaded (p : string) : Prop :=
  ∀ s : state,
    load (Some p) s =
      (set_self UserConfig_default;;
       _update_from_file p;;
       uc ← get_self;
       mret (uc, p)) s.

(** The explicit path is loaded, and it is the only file read. *)
Definition explicit_path_exclusive (p : string) : Prop :=
  explicit_path_loaded p ∧ explicit_path_only p.

(** Every document with a [version] that is not the integer 1 or the
    integer 2 makes [_update_from_file] raise, with the accumulator left as
    it was. *)
Definition other_versions_are_fatal : Prop :=
  ∀ config_path (s : state) (data : dict) v,
    st_files s !! config_path = Some (Yaml data) →
    dict_get "version" data = Some v →
    v ≠ YInt 1 → v ≠ YInt 2 →
    ∃ e s', _update_from_file config_path s = (Raise e, s') ∧ st_self s' = st_self s.

(** ** ggshield.cmd.config.config_update *)

(** The [ctx.obj["config"]] object, whose class is declared outside these
    sources: the two attributes [config_update_cmd] reads. *)
Record Config := mkConfig {
  user_config : UserConfig;
  _config_path : string
}.

(** [config_update_cmd]: [config.user_config.save(config._config_path)] *)
Definition config_update_cmd (config : Config) : M state unit :=
  set_self (user_config config);;
  save (_config_path config).

(** ** Vocabulary for the properties below *)

(** Every exception the outcome can be is an allowed one. *)
Definition raises_only {A} (allowed : exn → Prop) (r : result A) : Prop :=
  ∀ e, r = Raise e → allowed e.

(** What a schema can raise: a validation error, or what the post-init hook
    raised. *)
Definition schema_exn (e : exn) : Prop :=
  match e with
  | ValidationError _ | ExternalError _ => True
  | _ => False
  end.

(** What [load_v1] can raise. *)
Definition migrator_exn (e : exn) : Prop :=
  match e with
  | ValidationError _ | ExternalError _ | TypeError | RuntimeError => True
  | _ => False
  end.

(** What [_update_from_file] can raise on [config_path]. *)
Definition update_exn (config_path : string) (e : exn) : Prop :=
  match e with
  | ValidationError _ => False
  | ParseError path _ => path = config_path
  | _ => True
  end.

(** The first path of the list at which a file exists. *)
Definition first_existing (files : gmap string file) (paths : list string)
  : option string :=
  head (filter (λ path, is_Some (files !! path)) paths).

(** * Properties *)

(** ** Adding an ignored match *)

Lemma add_ignored_match_loop_None matches secret :
  add_ignored_match_loop matches secret = None ↔
  match_ secret ∉ match_ <$> matches.
Proof.
  clear post_init_ignored_match get_global_path DEFAULT_LOCAL_CONFIG_PATH.
  induction matches as [|m rest IH]; simpl.
  - split; [intros _; apply not_elem_of_nil | done].
  - rewrite not_elem_of_cons. destruct (decide (match_ m = match_ secret)) as [E|E].
    + split; [by destruct (decide (name m = "")) | intros [? _]; congruence].
    + rewrite fmap_None, IH. split; [intros ?; split; [congruence | done] | tauto].
Qed.

Lemma add_ignored_match_loop_hit matches secret i e :
  unique_matches matches →
  matches !! i = Some e →
  match_ e = match_ secret →
  add_ignored_match_loop matches secret =
    Some (if decide (name e = "")
          then <[i := mkIgnoredMatch (name secret) (match_ e)]> matches
          else matches).
Proof.
  unfold unique_matches. revert i.
  induction matches as [|m rest IH]; intros i Hnd Hi He; [done|].
  rewrite fmap_cons in Hnd. apply NoDup_cons in Hnd as [Hm Hnd].
  destruct i as [|i]; simpl in *.
  - injection Hi as ->. rewrite decide_True by done.
    by destruct (decide (name e = "")).
  - rewrite decide_False.
    + rewrite (IH i Hnd Hi He). by destruct (decide (name e = "")).
    + intros Hmm. apply Hm. rewrite Hmm, <- He.
      apply list_elem_of_fmap. exists e. split; [done|].
      by eapply list_elem_of_lookup_2.
Qed.

Lemma add_ignored_match_hashes self secret :
  match_ <$> ignored_matches (add_ignored_match self secret) =
  if decide (match_ secret ∈ match_ <$> ignored_matches self)
  then match_ <$> ignored_matches self
  else (match_ <$> ignored_matches self) ++ [match_ secret].
Proof.
  unfold add_ignored_match.
  generalize (ignored_matches self) as l. intros l.
  destruct (decide (match_ secret ∈ match_ <$> l)) as [Hin|Hin].
  - assert (∃ l', add_ignored_match_loop l secret = Some l' ∧ match_ <$> l' = match_ <$> l)
      as (l' & -> & Hl'); [|done].
    clear self. induction l as [|m rest IH]; simpl in *; [by apply elem_of_nil in Hin|].
    destruct (decide (match_ m = match_ secret)) as [E|E].
    + destruct (decide (name m = "")); eexists; (split; [done|]); done.
    + apply elem_of_cons in Hin as [?|Hin]; [congruence|].
      destruct (IH Hin) as (l' & -> & Hl'). eexists; split; [done|].
      rewrite !fmap_cons. by rewrite Hl'.
  - apply add_ignored_match_loop_None in Hin as ->. simpl.
    by rewrite fmap_app.
Qed.

Lemma filter_none {A} (P : A → Prop) `{!∀ x, Decision (P x)} (l : list A) :
  (∀ x, x ∈ l → ¬ P x) → filter P l = [].
Proof.
  induction l as [|a l IH]; intros Hl; [done|].
  rewrite filter_cons_False by (apply Hl; left).
  apply IH. intros x Hx. apply Hl. by right.
Qed.

(** C3. On a SecretConfig with at most one entry per match hash,
    [add_ignored_match] touches nothing but [ignored_matches]; it appends the
    new entry when its hash is absent; it names the existing entry, in place
    and without appending, when that entry has the same hash and an empty
    name; it changes nothing when the existing entry is named.  The
    at-most-one-entry-per-hash invariant is preserved, and adding the same
    new hash under the names "" then x, or x then "", leaves exactly one
    entry for that hash, named x. *)
Theorem add_ignored_match_spec (self : SecretConfig) (m : IgnoredMatch) :
  unique_matches (ignored_matches self) →
  (match_ m ∉ match_ <$> ignored_matches self →
     add_ignored_match self m =
       mkSecretConfig (show_secrets self) (ignored_detectors self)
         (ignored_matches self ++ [m]) (ignored_paths self)) ∧
  (∀ i e, ignored_matches self !! i = Some e → match_ e = match_ m → name e = "" →
     add_ignored_match self m =
       mkSecretConfig (show_secrets self) (ignored_detectors self)
         (<[i := mkIgnoredMatch (name m) (match_ e)]> (ignored_matches self))
         (ignored_paths self)) ∧
  (∀ e, e ∈ ignored_matches self → match_ e = match_ m → name e ≠ "" →
     add_ignored_match self m = self) ∧
  unique_matches (ignored_matches (add_ignored_match self m)) ∧
  (∀ x, match_ m ∉ match_ <$> ignored_matches self →
     let unnamed := mkIgnoredMatch "" (match_ m) in
     let named := mkIgnoredMatch x (match_ m) in
     ignored_matches (add_ignored_match (add_ignored_match self unnamed) named)
       = ignored_matches self ++ [named] ∧
     ignored_matches (add_ignored_match (add_ignored_match self named) unnamed)
       = ignored_matches self ++ [named] ∧
     length (filter (λ e, match_ e = match_ m) (ignored_matches self ++ [named])) = 1%nat).
Proof.
  intros Hu. split_and!.
  - intros Hm. unfold add_ignored_match.
    by apply add_ignored_match_loop_None in Hm as ->.
  - intros i e Hi He Hn. unfold add_ignored_match.
    rewrite (add_ignored_match_loop_hit _ _ i e Hu Hi He).
    by rewrite decide_True.
  - intros e [i Hi]%list_elem_of_lookup_1 He Hn. unfold add_ignored_match.
    rewrite (add_ignored_match_loop_hit _ _ i e Hu Hi He).
    rewrite decide_False by done. by destruct self.
  - unfold unique_matches. rewrite add_ignored_match_hashes.
    case_decide; [done|]. apply NoDup_app. split_and!; [done| |apply NoDup_singleton].
    intros h Hh ->%list_elem_of_singleton. done.
  - intros x Hm unnamed named.
    assert (Hfresh : add_ignored_match_loop (ignored_matches self) unnamed = None)
      by by apply add_ignored_match_loop_None.
    assert (Hfresh' : add_ignored_match_loop (ignored_matches self) named = None)
      by by apply add_ignored_match_loop_None.
    assert (Hu' : ∀ e, match_ e = match_ m → unique_matches (ignored_matches self ++ [e])).
    { intros e He. unfold unique_matches. rewrite fmap_app. apply NoDup_app.
      split_and!; [done| |apply NoDup_singleton].
      intros h Hh ->%list_elem_of_singleton. simpl in Hh. congruence. }
    assert (Hlast : ∀ e : IgnoredMatch,
               (ignored_matches self ++ [e]) !! length (ignored_matches self) = Some e).
    { intros e. rewrite lookup_app_r by done. by rewrite Nat.sub_diag. }
    split_and!.
    + unfold add_ignored_match at 2. rewrite Hfresh. unfold add_ignored_match. simpl.
      rewrite (add_ignored_match_loop_hit _ named _ unnamed (Hu' unnamed eq_refl)
                 (Hlast unnamed) eq_refl).
      simpl. rewrite insert_app_r_alt by done. by rewrite Nat.sub_diag.
    + unfold add_ignored_match at 2. rewrite Hfresh'. unfold add_ignored_match. simpl.
      rewrite (add_ignored_match_loop_hit _ unnamed _ named (Hu' named eq_refl)
                 (Hlast named) eq_refl).
      simpl. destruct (decide (x = "")) as [->|]; [|done].
      rewrite insert_app_r_alt by done. by rewrite Nat.sub_diag.
    + rewrite filter_app, length_app, filter_cons_True by done.
      rewrite (filter_none (λ e, match_ e = match_ m)); [done|].
      intros e He Hem. apply Hm. apply list_elem_of_fmap. by exists e.
Qed.

(** ** Documents and dictionaries *)

Lemma yaml_nested_ind (P : yaml → Prop) :
  P YNull →
  (∀ b, P (YBool b)) →
  (∀ z, P (YInt z)) →
  (∀ s, P (YStr s)) →
  (∀ l, Forall P l → P (YList l)) →
  (∀ d : dict, Forall (λ kv, P kv.2) d → P (YDict d)) →
  ∀ v, P v.
Proof.
  intros Hnull Hbool Hint Hstr Hlist Hdict. fix IH 1. intros [|b|z|s|l|d].
  - exact Hnull.
  - apply Hbool.
  - apply Hint.
  - apply Hstr.
  - apply Hlist. induction l as [|x l IHl]; constructor; [apply IH | exact IHl].
  - apply Hdict. induction d as [|[k x] d IHd]; constructor; [apply IH | exact IHd].
Qed.

(** [yaml_eqb] decides equality of documents. *)
Lemma yaml_eqb_eq (a b : yaml) : yaml_eqb a b = true ↔ a = b.
Proof.
  revert b. induction a as [|x|x|x|l IHl|d IHd] using yaml_nested_ind;
    intros [|y|y|y|m|m]; simpl; try (split; [done|congruence]).
  - rewrite bool_decide_eq_true. split; congruence.
  - rewrite bool_decide_eq_true. split; congruence.
  - rewrite bool_decide_eq_true. split; congruence.
  - revert m. induction IHl as [|x l Hx _ IH]; intros [|y m]; try (split; [done|congruence]).
    rewrite andb_true_iff, Hx, (IH m). split; [intros [-> [= ->]]; done | intros [= -> ->]; done].
  - revert m. induction IHd as [|[k x] d Hx _ IH]; intros [|[k' y] m];
      try (split; [done|congruence]).
    simpl in Hx. rewrite !andb_true_iff, bool_decide_eq_true, Hx, (IH m).
    split; [intros [[-> ->] [= ->]]; done | intros [= -> -> ->]; done].
Qed.

Lemma dict_get_set key key' v (d : dict) :
  dict_get key (dict_set key' v d) = if decide (key = key') then Some v else dict_get key d.
Proof.
  induction d as [|[k x] d IH]; simpl.
  - destruct (decide (key' = key)), (decide (key = key')); congruence.
  - destruct (decide (k = key')) as [->|Hk]; simpl.
    + destruct (decide (key' = key)), (decide (key = key')); congruence.
    + destruct (decide (k = key)) as [->|]; [|done].
      by rewrite decide_False.
Qed.

Lemma dict_get_del key key' (d : dict) :
  dict_get key (dict_del key' d) = if decide (key = key') then None else dict_get key d.
Proof.
  induction d as [|[k x] d IH]; simpl.
  - by destruct (decide (key = key')).
  - destruct (decide (k = key')) as [->|Hk]; simpl.
    + rewrite IH. destruct (decide (key = key')) as [->|]; [done|].
      by rewrite decide_False.
    + rewrite IH. destruct (decide (k = key)) as [->|]; [|done].
      by rewrite decide_False.
Qed.

Lemma dict_set_id key v (d : dict) :
  dict_get key d = Some v → dict_set key v d = d.
Proof.
  induction d as [|[k x] d IH]; simpl; [done|].
  destruct (decide (k = key)) as [->|]; [congruence|].
  intros ?. by rewrite IH.
Qed.

Lemma dict_set_keys key v (d : dict) :
  is_Some (dict_get key d) → (dict_set key v d).*1 = d.*1.
Proof.
  induction d as [|[k x] d IH]; simpl; [by intros [? ?]|].
  destruct (decide (k = key)) as [->|]; [done|].
  intros ?. rewrite !fmap_cons. by rewrite IH.
Qed.

Lemma dict_mem_true key (d : dict) : dict_mem key d = true ↔ is_Some (dict_get key d).
Proof. unfold dict_mem. apply bool_decide_eq_true. Qed.

Lemma dict_mem_false key (d : dict) : dict_mem key d = false ↔ dict_get key d = None.
Proof. unfold dict_mem. rewrite bool_decide_eq_false. by rewrite eq_None_not_Some. Qed.

(** ** Normalizing [matches_ignore] *)

Lemma update_matches_ignore_list (data : dict) entries :
  dict_get "matches_ignore" data = Some (YList entries) →
  update_matches_ignore data =
    Ok (dict_set "matches_ignore" (YList (convert_match <$> entries)) data).
Proof.
  intros Hget. unfold update_matches_ignore. rewrite Hget.
  destruct entries as [|entry entries]; simpl; [|done].
  by rewrite dict_set_id.
Qed.

(** C6. [update_matches_ignore] on a version-1 document whose
    [matches_ignore] is a list rewrites the list in place: the key keeps its
    position, the list keeps its length and order, every entry that is a bare
    string s becomes {name: "", match: s} and every other entry (the objects)
    is unchanged.  A document without [matches_ignore], or with an empty one,
    is returned untouched, and no other key is ever affected. *)
Theorem update_matches_ignore_spec (data : dict) :
  (∀ entries, dict_get "matches_ignore" data = Some (YList entries) →
     ∃ entries',
       update_matches_ignore data =
         Ok (dict_set "matches_ignore" (YList entries') data) ∧
       (dict_set "matches_ignore" (YList entries') data).*1 = data.*1 ∧
       length entries' = length entries ∧
       (∀ i hash, entries !! i = Some (YStr hash) →
          entries' !! i = Some (YDict [("name", YStr ""); ("match", YStr hash)])) ∧
       (∀ i entry, entries !! i = Some entry → (∀ hash, entry ≠ YStr hash) →
          entries' !! i = Some entry)) ∧
  (dict_get "matches_ignore" data = None → update_matches_ignore data = Ok data) ∧
  (dict_get "matches_ignore" data = Some (YList []) →
     update_matches_ignore data = Ok data) ∧
  (∀ data' key, update_matches_ignore data = Ok data' → key ≠ "matches_ignore" →
     dict_get key data' = dict_get key data).
Proof.
  split_and!.
  - intros entries Hget. exists (convert_match <$> entries). split_and!.
    + by apply update_matches_ignore_list.
    + apply dict_set_keys. by rewrite Hget.
    + apply length_fmap.
    + intros i hash Hi. by rewrite list_lookup_fmap, Hi.
    + intros i entry Hi Hne. rewrite list_lookup_fmap, Hi. simpl.
      destruct entry; try done. by destruct (Hne s).
  - intros Hget. unfold update_matches_ignore. by rewrite Hget.
  - intros Hget. unfold update_matches_ignore. by rewrite Hget.
  - intros data' key Hok Hkey. unfold update_matches_ignore in Hok.
    destruct (dict_get "matches_ignore" data) as [v|]; [|by injection Hok as <-].
    destruct (negb (py_truthy v)); [by injection Hok as <-|].
    destruct v; try done. injection Hok as <-.
    rewrite dict_get_set. by rewrite decide_False.
Qed.

(** ** Running computations *)

Lemma result_bind_Ok {A B} (r : result A) (f : A → result B) b :
  r ≫= f = Ok b ↔ ∃ a, r = Ok a ∧ f a = Ok b.
Proof.
  destruct r as [a|e]; simpl; [|split; [done|by intros (? & ? & ?)]].
  split; [by exists a|]. by intros (? & [= <-] & ?).
Qed.

Lemma M_bind_run {S A B} (c : M S A) (f : A → M S B) s :
  (c ≫= f) s = match c s with
               | (Ok a, s') => f a s'
               | (Raise e, s') => (Raise e, s')
               end.
Proof. done. Qed.

Lemma M_bind_Ok {S A B} (c : M S A) (f : A → M S B) s b s2 :
  (c ≫= f) s = (Ok b, s2) ↔ ∃ a s1, c s = (Ok a, s1) ∧ f a s1 = (Ok b, s2).
Proof.
  rewrite M_bind_run. destruct (c s) as [[a|e] s1].
  - split; [by exists a, s1|]. by intros (? & ? & [= <- <-] & ?).
  - split; [done|]. by intros (? & ? & ? & ?).
Qed.

(** ** Merging tiers *)

(** C2. Merging copies every declared field of the loaded instance onto the
    accumulator, recursively into SecretConfig and IaCConfig, so after
    merging tier A and then tier B every field of the accumulator has B's
    value, whatever the accumulator and A held; in particular the later
    tier's ignored paths replace the earlier tier's set, they are not added
    to it. *)
Theorem merge_later_tier_wins (accumulator A B : UserConfig) :
  update_from_other_instance accumulator B = B ∧
  update_from_other_instance (update_from_other_instance accumulator A) B = B ∧
  ignored_paths
    (secret (update_from_other_instance (update_from_other_instance accumulator A) B))
    = ignored_paths (secret B) ∧
  iac_ignored_paths
    (iac (update_from_other_instance (update_from_other_instance accumulator A) B))
    = iac_ignored_paths (iac B).
Proof.
  assert (Hcopy : ∀ dst src, update_from_other_instance dst src = src).
  { intros dst [[] ? ? ? ? ? []]. reflexivity. }
  by rewrite !Hcopy.
Qed.

(** ** Saving *)

Lemma UserConfigSchema_load_empty : UserConfigSchema_load [] = Ok UserConfig_default.
Proof. unfold UserConfigSchema_load, check_unknown. by destruct unknown. Qed.

Lemma save_run config_path s :
  save config_path s =
    (Ok tt, mkState (st_self s)
              (<[config_path := Yaml (save_document (st_self s) UserConfig_default)]>
                 (st_files s))
              (st_console s)).
Proof.
  unfold save. rewrite M_bind_run. simpl.
  rewrite M_bind_run. unfold lift. by rewrite UserConfigSchema_load_empty.
Qed.

(** C4. [save] on a default UserConfig writes the document whose only key is
    [version], with value 2; and on any UserConfig [save] succeeds and the
    document it writes carries [version: 2], whatever the pruning left. *)
Theorem save_writes_version config_path (s : state) :
  (st_self s = UserConfig_default →
     save config_path s =
       (Ok tt, mkState (st_self s)
                 (<[config_path := Yaml [("version", YInt 2)]]> (st_files s))
                 (st_console s))) ∧
  (∃ dct,
     save config_path s =
       (Ok tt, mkState (st_self s) (<[config_path := Yaml dct]> (st_files s))
                 (st_console s)) ∧
     dict_get "version" dct = Some (YInt 2)).
Proof.
  split.
  - intros Hself. rewrite save_run, Hself.
    by assert (save_document UserConfig_default UserConfig_default
               = [("version", YInt 2)]) as -> by (vm_compute; reflexivity).
  - eexists. split; [apply save_run|].
    unfold save_document. rewrite dict_get_set. by rewrite decide_True.
Qed.

(** ** No unsupported-version error from the schemas or the migrator *)

Create HintDb no_click discriminated.

Lemma nc_Ok {A} (a : A) : not_ClickException (Ok a).
Proof. by intros v. Qed.

Lemma nc_invalid {A} : not_ClickException (@invalid A).
Proof. by intros v. Qed.

Lemma nc_bind {A B} (r : result A) (f : A → result B) :
  not_ClickException r → (∀ a, not_ClickException (f a)) → not_ClickException (r ≫= f).
Proof.
  intros Hr Hf. destruct r as [a|e]; [apply Hf|].
  intros v [= ->]. by eapply Hr.
Qed.

Lemma nc_fmap {A B} (g : A → B) (r : result A) :
  not_ClickException r → not_ClickException (g <$> r).
Proof. intros Hr v. destruct r as [a|e]; [done|]. intros [= ->]. by eapply Hr. Qed.

Lemma nc_in_field {A} key (r : result A) :
  not_ClickException r → not_ClickException (in_field key r).
Proof. intros Hr v. by destruct r as [a|[]]. Qed.

Lemma nc_traverse {A B} (f : A → result B) (xs : list A) :
  (∀ x, not_ClickException (f x)) → not_ClickException (traverse f xs).
Proof.
  intros Hf. induction xs as [|x xs IH]; simpl; [apply nc_Ok|].
  apply nc_bind; [done|]. intros y. apply nc_bind; [done|]. intros ys. apply nc_Ok.
Qed.

Lemma nc_load_field {A} key (load_value : yaml → result A) dflt (data : dict) :
  (∀ v, not_ClickException (load_value v)) →
  not_ClickException (load_field key load_value dflt data).
Proof.
  intros Hl. unfold load_field. destruct (dict_get key data); [|apply nc_Ok].
  by apply nc_in_field.
Qed.

Lemma nc_load_required {A} key (load_value : yaml → result A) (data : dict) :
  (∀ v, not_ClickException (load_value v)) →
  not_ClickException (load_required key load_value data).
Proof.
  intros Hl. unfold load_required. destruct (dict_get key data); [|done].
  by apply nc_in_field.
Qed.

Lemma nc_load_Boolean v : not_ClickException (load_Boolean v).
Proof. destruct v; simpl; try done; repeat case_decide; done. Qed.

Lemma nc_load_Integer v : not_ClickException (load_Integer v).
Proof. destruct v; simpl; try done. by destruct (int_of_str s). Qed.

Lemma nc_load_String v : not_ClickException (load_String v).
Proof. by destruct v. Qed.

Lemma nc_load_Optional_String v : not_ClickException (load_Optional_String v).
Proof. by destruct v. Qed.

Lemma nc_load_List {A} (load_item : yaml → result A) v :
  (∀ x, not_ClickException (load_item x)) → not_ClickException (load_List load_item v).
Proof. intros Hl. destruct v; try done. by apply nc_traverse. Qed.

Lemma nc_load_Set_String v : not_ClickException (load_Set_String v).
Proof. apply nc_fmap, nc_load_List, nc_load_String. Qed.

Lemma nc_check_unknown declared (data : dict) :
  not_ClickException (check_unknown declared data).
Proof.
  unfold check_unknown. destruct unknown; [|done].
  by destruct (filter _ data) as [|[] ?].
Qed.

#[local] Hint Resolve nc_Ok nc_invalid nc_load_Boolean nc_load_Integer nc_load_String
  nc_load_Optional_String nc_load_Set_String nc_check_unknown : no_click.
#[local] Hint Extern 2 (not_ClickException (_ ≫= _)) => apply nc_bind; [|intros ?] : no_click.
#[local] Hint Extern 1 (not_ClickException (load_field _ _ _ _)) =>
  apply nc_load_field; intros ? : no_click.
#[local] Hint Extern 1 (not_ClickException (load_required _ _ _)) =>
  apply nc_load_required; intros ? : no_click.
#[local] Hint Extern 1 (not_ClickException (load_List _ _)) =>
  apply nc_load_List; intros ? : no_click.

Lemma nc_load_IgnoredMatch v : not_ClickException (load_IgnoredMatch v).
Proof. destruct v; try done. unfold load_IgnoredMatch. auto 10 with no_click. Qed.

#[local] Hint Resolve nc_load_IgnoredMatch : no_click.

Lemma nc_SecretConfig_post_init self : not_ClickException (SecretConfig_post_init self).
Proof.
  unfold SecretConfig_post_init. apply nc_bind; [|auto with no_click].
  apply nc_traverse. intros m. by destruct (post_init_ignored_match m).
Qed.

Lemma nc_UserV1ConfigSchema_load (data : dict) :
  not_ClickException (UserV1ConfigSchema_load data).
Proof. unfold UserV1ConfigSchema_load. auto 30 with no_click. Qed.

Lemma nc_update_matches_ignore (data : dict) :
  not_ClickException (update_matches_ignore data).
Proof.
  unfold update_matches_ignore. destruct (dict_get _ data) as [v|]; [|done].
  destruct (negb (py_truthy v)); [done|]. by destruct v.
Qed.

Lemma M_nc_bind {S A B} (c : M S A) (f : A → M S B) :
  (∀ s, not_ClickException (c s).1) →
  (∀ a s, not_ClickException (f a s).1) →
  ∀ s, not_ClickException ((c ≫= f) s).1.
Proof.
  intros Hc Hf s. rewrite M_bind_run. specialize (Hc s).
  destruct (c s) as [[a|e] s']; [apply Hf|].
  intros v [= ->]. by eapply Hc.
Qed.

Lemma nc_migrate_api_url (data : dict) out :
  not_ClickException (migrate_api_url data out).1.
Proof.
  unfold migrate_api_url. destruct (dict_pop "api_url" data) as [[api_url data']|]; [|done].
  destruct (dict_mem "instance" data'); [done|].
  rewrite M_bind_run. unfold call_api_to_dashboard_url.
  by destruct (api_to_dashboard_url api_url true) as [[url|] w].
Qed.

Lemma nc_load_v1 (data : dict) out : not_ClickException (load_v1 data out).1.
Proof.
  revert out. unfold load_v1.
  apply M_nc_bind; [apply nc_migrate_api_url|]. intros data1.
  apply M_nc_bind; [intros out; apply nc_update_matches_ignore|]. intros data2.
  apply M_nc_bind; [intros out; apply nc_UserV1ConfigSchema_load|]. intros v1config.
  apply M_nc_bind; [by intros out; destruct (all_policies v1config)|]. intros _.
  apply M_nc_bind; [by intros out; destruct (ignore_default_excludes v1config)|]. intros _.
  apply M_nc_bind; [intros out; apply nc_SecretConfig_post_init|]. by intros secret_ out.
Qed.

(** ** The console only grows *)

Lemma appends_bind {A B} (c : M (list string) A) (f : A → M (list string) B) :
  (∀ out, ∃ w, (c out).2 = out ++ w) →
  (∀ a out, ∃ w, (f a out).2 = out ++ w) →
  ∀ out, ∃ w, ((c ≫= f) out).2 = out ++ w.
Proof.
  intros Hc Hf out. rewrite M_bind_run. destruct (Hc out) as [w Hw].
  destruct (c out) as [[a|e] out1]; simpl in Hw; subst out1.
  - destruct (Hf a (out ++ w)) as [w' Hw']. exists (w ++ w').
    by rewrite Hw', (assoc_L (++)).
  - by exists w.
Qed.

Lemma appends_pure {A} (r : result A) (out : list string) :
  ∃ w, (lift r out).2 = out ++ w.
Proof. exists []. by rewrite app_nil_r. Qed.

Lemma appends_warning_if (b : bool) message (out : list string) :
  ∃ w, ((if b then display_warning message else mret tt) out).2 = out ++ w.
Proof. destruct b; [by exists [message] | exists []; by rewrite app_nil_r]. Qed.

Lemma appends_migrate_api_url (data : dict) out :
  ∃ w, (migrate_api_url data out).2 = out ++ w.
Proof.
  unfold migrate_api_url.
  destruct (dict_pop "api_url" data) as [[api_url data']|];
    [|exists []; by rewrite app_nil_r].
  destruct (dict_mem "instance" data'); [exists []; by rewrite app_nil_r|].
  rewrite M_bind_run. unfold call_api_to_dashboard_url.
  destruct (api_to_dashboard_url api_url true) as [[url|] w]; by exists w.
Qed.

Lemma appends_load_v1 (data : dict) out : ∃ w, (load_v1 data out).2 = out ++ w.
Proof.
  revert out. unfold load_v1.
  apply appends_bind; [apply appends_migrate_api_url|]. intros data1.
  apply appends_bind; [apply appends_pure|]. intros data2.
  apply appends_bind; [apply appends_pure|]. intros v1config.
  apply appends_bind; [apply appends_warning_if|]. intros _.
  apply appends_bind; [apply appends_warning_if|]. intros _.
  apply appends_bind; [apply appends_pure|]. intros secret_ out.
  exists []. by rewrite app_nil_r.
Qed.

(** ** Loading one file *)

Lemma load_versioned_console config_path config_version (data : dict) :
  ∃ c : M (list string) UserConfig,
    ∀ s, load_versioned config_path config_version data s = on_console c s.
Proof.
  unfold load_versioned.
  destruct (py_eq_int config_version 2);
    [exists (lift (UserConfigSchema_load data)); by intros []|].
  destruct (py_eq_int config_version 1);
    [|exists (raise (ClickException config_version)); by intros []].
  exists (display_warning (deprecated_format_warning config_path);; load_v1 data).
  by intros [].
Qed.

(** [_update_from_file] reads one file and the console, and writes the
    object and the console: what it does is a console computation fixed by
    the path and by what the path holds. *)
Lemma _update_from_file_frame config_path (f : option file) :
  ∃ c : M (list string) UserConfig,
    ∀ s, st_files s !! config_path = f →
      _update_from_file config_path s =
        match c (st_console s) with
        | (Ok obj, out) =>
            (Ok tt, mkState (update_from_other_instance (st_self s) obj) (st_files s) out)
        | (Raise e, out) => (Raise e, mkState (st_self s) (st_files s) out)
        end.
Proof.
  assert (Hbody : ∀ loaded, ∃ c : M (list string) UserConfig, ∀ s,
    (let '(config_version, data) := pop_version (or_current_version loaded) in
     obj ← except_ValidationError (load_versioned config_path config_version data)
             (ParseError config_path);
     self ← get_self;
     set_self (update_from_other_instance self obj)) s =
    match c (st_console s) with
    | (Ok obj, out) =>
        (Ok tt, mkState (update_from_other_instance (st_self s) obj) (st_files s) out)
    | (Raise e, out) => (Raise e, mkState (st_self s) (st_files s) out)
    end).
  { intros loaded. destruct (pop_version (or_current_version loaded)) as [v data].
    destruct (load_versioned_console config_path v data) as [c Hc].
    exists (except_ValidationError c (ParseError config_path)). intros s.
    rewrite M_bind_run. unfold except_ValidationError. rewrite Hc. unfold on_console.
    destruct (c (st_console s)) as [[obj|[]] out]; done. }
  destruct f as [[|document]|].
  - exists (raise (ParseError config_path [])). intros [u fs out] Hf. simpl in *.
    unfold _update_from_file. rewrite M_bind_run. unfold load_yaml. simpl. by rewrite Hf.
  - destruct (Hbody (Some document)) as [c Hc]. exists c. intros s Hf.
    unfold _update_from_file. rewrite M_bind_run. unfold load_yaml. rewrite Hf. apply Hc.
  - destruct (Hbody None) as [c Hc]. exists c. intros s Hf.
    unfold _update_from_file. rewrite M_bind_run. unfold load_yaml. rewrite Hf. apply Hc.
Qed.

(** C7. A document whose [version] is present and equal neither to 1 nor to
    2 (equality as Python's [==] decides it on the parsed value, under which
    [true] equals 1) makes [_update_from_file] raise the unsupported-version
    exception and leaves the whole state, the accumulator included, as it
    was; and whenever [_update_from_file] raises, for whatever reason
    (invalid YAML, schema validation, migration), the accumulator is exactly
    the one it started with. *)
Theorem unsupported_version_is_fatal config_path (s : state) :
  (∀ (data : dict) v,
     st_files s !! config_path = Some (Yaml data) →
     dict_get "version" data = Some v →
     py_eq_int v 1 = false → py_eq_int v 2 = false →
     _update_from_file config_path s = (Raise (ClickException v), s)) ∧
  (∀ e s', _update_from_file config_path s = (Raise e, s') →
     st_self s' = st_self s ∧ st_files s' = st_files s).
Proof.
  split.
  - intros data v Hf Hget H1 H2. destruct s as [u fs out]. simpl in Hf.
    unfold _update_from_file. rewrite M_bind_run. unfold load_yaml. simpl. rewrite Hf.
    destruct data as [|item items]; [done|]. unfold or_current_version, pop_version, dict_pop.
    rewrite Hget. simpl. rewrite M_bind_run.
    unfold except_ValidationError, load_versioned. by rewrite H2, H1.
  - intros e s' Hrun.
    destruct (_update_from_file_frame config_path (st_files s !! config_path)) as [c Hc].
    rewrite Hc in Hrun by done.
    destruct (c (st_console s)) as [[obj|e'] out]; [done|]. by injection Hrun as <- <-.
Qed.

(** C10. A non-empty document without a [version] key is loaded as version
    1: [_update_from_file] displays the deprecated-format warning and runs
    the migrator [load_v1] on the document (not the current-version schema),
    the warning is on the console afterwards, and the outcome is never the
    unsupported-version exception.  An empty file, like an absent one, is
    loaded as version 2 with every field at its default and no warning. *)
Theorem missing_version_is_v1 config_path (s : state) :
  (∀ data : dict,
     st_files s !! config_path = Some (Yaml data) →
     data ≠ [] →
     dict_get "version" data = None →
     _update_from_file config_path s =
       (obj ← except_ValidationError
                 (on_console (display_warning (deprecated_format_warning config_path));;
                  on_console (load_v1 data))
                 (ParseError config_path);
        self ← get_self;
        set_self (update_from_other_instance self obj)) s ∧
     (∃ w, st_console (_update_from_file config_path s).2 =
             st_console s ++ deprecated_format_warning config_path :: w) ∧
     not_ClickException (_update_from_file config_path s).1) ∧
  (st_files s !! config_path = Some (Yaml []) ∨ st_files s !! config_path = None →
     _update_from_file config_path s =
       (Ok tt, mkState (update_from_other_instance (st_self s) UserConfig_default)
                 (st_files s) (st_console s))).
Proof.
  split.
  - intros data Hf Hne Hget.
    assert (Heq : _update_from_file config_path s =
       (obj ← except_ValidationError
                 (on_console (display_warning (deprecated_format_warning config_path));;
                  on_console (load_v1 data))
                 (ParseError config_path);
        self ← get_self;
        set_self (update_from_other_instance self obj)) s).
    { unfold _update_from_file. rewrite M_bind_run at 1. unfold load_yaml. rewrite Hf.
      destruct data as [|item items]; [done|].
      unfold or_current_version, pop_version, dict_pop. by rewrite Hget. }
    split; [done|]. rewrite Heq. clear Heq. destruct s as [u fs out].
    rewrite M_bind_run. unfold except_ValidationError. rewrite M_bind_run.
    unfold on_console, display_warning. simpl.
    pose proof (nc_load_v1 data (out ++ [deprecated_format_warning config_path])) as Hnc.
    destruct (appends_load_v1 data (out ++ [deprecated_format_warning config_path]))
      as [w Hw].
    destruct (load_v1 data (out ++ [deprecated_format_warning config_path]))
      as [[obj|e] out'] eqn:Hl; simpl in Hw, Hnc; subst out'.
    + split; [|done]. exists w. simpl. by rewrite <- (assoc_L (++)).
    + split.
      * exists w. destruct e; simpl; by rewrite <- (assoc_L (++)).
      * intros v. destruct e; simpl; try done. by destruct (Hnc config_version).
  - intros Hf. unfold _update_from_file. rewrite M_bind_run. unfold load_yaml.
    assert (Hld : ∀ loaded, or_current_version loaded = [("version", YInt 2)] →
      (let '(config_version, data) := pop_version (or_current_version loaded) in
       obj ← except_ValidationError (load_versioned config_path config_version data)
               (ParseError config_path);
       self ← get_self;
       set_self (update_from_other_instance self obj)) s =
      (Ok tt, mkState (update_from_other_instance (st_self s) UserConfig_default)
                (st_files s) (st_console s))).
    { intros loaded ->. simpl. rewrite M_bind_run.
      unfold except_ValidationError, load_versioned. simpl. unfold lift.
      by rewrite UserConfigSchema_load_empty. }
    destruct Hf as [-> | ->]; by apply Hld.
Qed.

Lemma explicit_path_only_nonempty (p : string) : p ≠ "" → explicit_path_only p.
Proof.
  intros Hp s1 s2 Hfiles Hconsole.
  assert (Hrun : ∀ s, st_files s !! p = st_files s1 !! p → st_console s = st_console s1 →
    ∃ r out, ((load (Some p) s).1, st_console (load (Some p) s).2) = (r, out) ∧
      (∀ s', st_files s' !! p = st_files s1 !! p → st_console s' = st_console s1 →
         ((load (Some p) s').1, st_console (load (Some p) s').2) = (r, out)) ∧
      ∀ user_config path, r = Ok (user_config, path) → path = p).
  { intros s Hf Hc.
    destruct (_update_from_file_frame p (st_files s1 !! p)) as [c Hframe].
    assert (Hload : ∀ s', st_files s' !! p = st_files s1 !! p →
      load (Some p) s' =
        match c (st_console s') with
        | (Ok obj, out) =>
            (Ok (update_from_other_instance UserConfig_default obj, p),
             mkState (update_from_other_instance UserConfig_default obj) (st_files s') out)
        | (Raise e, out) => (Raise e, mkState UserConfig_default (st_files s') out)
        end).
    { intros s' Hf'. unfold load, path_given. rewrite decide_False by done.
      rewrite M_bind_run. simpl. rewrite M_bind_run, Hframe by done. simpl.
      by destruct (c (st_console s')) as [[obj|e] out]. }
    destruct (c (st_console s1)) as [[obj|e] out] eqn:Hcs.
    - exists (Ok (update_from_other_instance UserConfig_default obj, p)), out.
      split_and!.
      + rewrite Hload, Hc, Hcs by done. done.
      + intros s' Hf' Hc'. rewrite Hload, Hc', Hcs by done. done.
      + by intros ?? [= _ <-].
    - exists (Raise e), out. split_and!.
      + rewrite Hload, Hc, Hcs by done. done.
      + intros s' Hf' Hc'. rewrite Hload, Hc', Hcs by done. done.
      + done. }
  destruct (Hrun s1 eq_refl eq_refl) as (r & out & H1 & Hall & Hpath).
  specialize (Hall s2 (eq_sym Hfiles) (eq_sym Hconsole)).
  injection H1 as H1r H1o. injection Hall as H2r H2o.
  split_and!; [congruence | congruence |].
  intros user_config path Hok. eapply Hpath. by rewrite <- H1r.
Qed.

(** C8 (for a non-empty path).  With a non-empty explicit path, [load] loads
    that file, through [_update_from_file] onto a new UserConfig, and reads
    no other: global and local discovery are skipped, so the outcome, the
    loaded UserConfig and the console do not depend on any other file, and
    the path returned for saving is the explicit path. *)
Theorem explicit_path_short_circuits (p : string) : p ≠ "" → explicit_path_exclusive p.
Proof.
  intros Hp. split.
  - intros s. unfold load, path_given. by rewrite decide_False.
  - by apply explicit_path_only_nonempty.
Qed.

(** ** The migrator *)

Lemma lift_Ok {S A} (r : result A) (s s' : S) a :
  lift r s = (Ok a, s') ↔ r = Ok a ∧ s' = s.
Proof. unfold lift. split; [by intros [= -> ->] | by intros [-> ->]]. Qed.

Lemma update_matches_ignore_other_keys (data data' : dict) key :
  update_matches_ignore data = Ok data' → key ≠ "matches_ignore" →
  dict_get key data' = dict_get key data.
Proof.
  intros Hok Hkey. unfold update_matches_ignore in Hok.
  destruct (dict_get "matches_ignore" data) as [v|]; [|by injection Hok as <-].
  destruct (negb (py_truthy v)); [by injection Hok as <-|].
  destruct v; try done. injection Hok as <-.
  rewrite dict_get_set. by rewrite decide_False.
Qed.

Lemma UserV1ConfigSchema_load_Ok (data : dict) c :
  UserV1ConfigSchema_load data = Ok c →
  load_field "instance" load_Optional_String None data = Ok (v1_instance c) ∧
  load_field "all_policies" load_Boolean false data = Ok (all_policies c) ∧
  load_field "exit_zero" load_Boolean false data = Ok (v1_exit_zero c) ∧
  load_field "matches_ignore" (load_List load_IgnoredMatch) [] data
    = Ok (matches_ignore c) ∧
  load_field "paths_ignore" load_Set_String ∅ data = Ok (paths_ignore c) ∧
  load_field "verbose" load_Boolean false data = Ok (v1_verbose c) ∧
  load_field "allow_self_signed" load_Boolean false data = Ok (v1_allow_self_signed c) ∧
  load_field "max_commits_for_hook" load_Integer 50 data
    = Ok (v1_max_commits_for_hook c) ∧
  load_field "ignore_default_excludes" load_Boolean false data
    = Ok (ignore_default_excludes c) ∧
  load_field "show_secrets" load_Boolean false data = Ok (v1_show_secrets c) ∧
  load_field "banlisted_detectors" load_Set_String ∅ data = Ok (banlisted_detectors c).
Proof.
  unfold UserV1ConfigSchema_load. intros H.
  repeat (apply result_bind_Ok in H as (? & ? & H)).
  injection H as <-. simpl. by split_and!.
Qed.

Lemma load_v1_Ok (data : dict) out user_config out' :
  load_v1 data out = (Ok user_config, out') →
  ∃ data1 out1 data2 v1config secret_,
    migrate_api_url data out = (Ok data1, out1) ∧
    update_matches_ignore data1 = Ok data2 ∧
    UserV1ConfigSchema_load data2 = Ok v1config ∧
    SecretConfig_post_init
      (mkSecretConfig (v1_show_secrets v1config) (banlisted_detectors v1config)
         (matches_ignore v1config) (paths_ignore v1config)) = Ok secret_ ∧
    user_config =
      mkUserConfig IaCConfig_default (v1_instance v1config) (v1_exit_zero v1config)
        (v1_verbose v1config) (v1_allow_self_signed v1config)
        (v1_max_commits_for_hook v1config) secret_.
Proof.
  unfold load_v1. intros H.
  apply M_bind_Ok in H as (data1 & out1 & Hm & H).
  apply M_bind_Ok in H as (data2 & ? & [Hu ->]%lift_Ok & H).
  apply M_bind_Ok in H as (v1config & ? & [Hs ->]%lift_Ok & H).
  apply M_bind_Ok in H as (? & ? & _ & H).
  apply M_bind_Ok in H as (? & ? & _ & H).
  apply M_bind_Ok in H as (secret_ & ? & [Hp _]%lift_Ok & H).
  injection H as <- _. by exists data1, out1, data2, v1config, secret_.
Qed.

Lemma migrate_api_url_absent (data : dict) out :
  dict_get "api_url" data = None → migrate_api_url data out = (Ok data, out).
Proof. intros Hget. unfold migrate_api_url, dict_pop. by rewrite Hget. Qed.

Lemma migrate_api_url_instance (data : dict) out api_url :
  dict_get "api_url" data = Some api_url →
  is_Some (dict_get "instance" data) →
  migrate_api_url data out = (Ok (dict_del "api_url" data), out).
Proof.
  intros Hget Hinst. unfold migrate_api_url, dict_pop. rewrite Hget. simpl.
  assert (dict_mem "instance" (dict_del "api_url" data) = true) as ->; [|done].
  apply dict_mem_true. by rewrite dict_get_del.
Qed.

Lemma migrate_api_url_derive (data : dict) out api_url url warnings :
  dict_get "api_url" data = Some api_url →
  dict_get "instance" data = None →
  api_to_dashboard_url api_url true = (Some url, warnings) →
  migrate_api_url data out =
    (Ok (dict_set "instance" (YStr url) (dict_del "api_url" data)), out ++ warnings).
Proof.
  intros Hget Hinst Hurl. unfold migrate_api_url, dict_pop. rewrite Hget. simpl.
  assert (dict_mem "instance" (dict_del "api_url" data) = false) as ->.
  { apply dict_mem_false. by rewrite dict_get_del. }
  rewrite M_bind_run. unfold call_api_to_dashboard_url. by rewrite Hurl.
Qed.

Lemma load_v1_after_migration (data data1 : dict) out out1 :
  migrate_api_url data out = (Ok data1, out1) →
  dict_get "api_url" data1 = None →
  load_v1 data out = load_v1 data1 out1.
Proof.
  intros Hm Hnone. unfold load_v1. rewrite !M_bind_run, Hm.
  by rewrite (migrate_api_url_absent data1 out1 Hnone).
Qed.

Lemma load_v1_reads_instance (data : dict) out user_config out' v :
  dict_get "api_url" data = None →
  dict_get "instance" data = Some v →
  load_v1 data out = (Ok user_config, out') →
  load_Optional_String v = Ok (instance user_config).
Proof.
  intros Hapi Hinst H.
  apply load_v1_Ok in H as (data1 & out1 & data2 & c & secret_ & Hm & Hu & Hs & _ & ->).
  rewrite migrate_api_url_absent in Hm by done. injection Hm as <- <-.
  apply UserV1ConfigSchema_load_Ok in Hs as (Hi & _). simpl.
  unfold load_field in Hi.
  rewrite (update_matches_ignore_other_keys _ _ "instance" Hu), Hinst in Hi by done.
  by destruct v.
Qed.

(** C5. In a version-1 document with [api_url]: when [instance] is absent,
    [load_v1] asks [api_to_dashboard_url] (with warn set) for the dashboard
    URL, goes on as if the document had that URL under [instance] and no
    [api_url], the warnings of the conversion are displayed, and the
    migrated UserConfig has that URL as its instance; when [instance] is
    present, [load_v1] behaves exactly as on the document without [api_url]
    and the migrated instance is the document's instance value. *)
Theorem load_v1_instance (data : dict) (out : list string) api_url :
  dict_get "api_url" data = Some api_url →
  (dict_get "instance" data = None →
     ∀ url warnings,
       api_to_dashboard_url api_url true = (Some url, warnings) →
       load_v1 data out =
         load_v1 (dict_set "instance" (YStr url) (dict_del "api_url" data))
           (out ++ warnings) ∧
       ∀ user_config out',
         load_v1 data out = (Ok user_config, out') →
         instance user_config = Some url ∧ ∃ w, out' = out ++ warnings ++ w) ∧
  (∀ v, dict_get "instance" data = Some v →
     load_v1 data out = load_v1 (dict_del "api_url" data) out ∧
     ∀ user_config out',
       load_v1 data out = (Ok user_config, out') →
       load_Optional_String v = Ok (instance user_config)).
Proof.
  intros Hapi. split.
  - intros Hinst url warnings Hurl.
    pose proof (migrate_api_url_derive data out api_url url warnings Hapi Hinst Hurl) as Hm.
    assert (Hgone : dict_get "api_url"
              (dict_set "instance" (YStr url) (dict_del "api_url" data)) = None).
    { rewrite dict_get_set, decide_False by done. by rewrite dict_get_del. }
    pose proof (load_v1_after_migration _ _ _ _ Hm Hgone) as Heq.
    split; [done|]. intros user_config out' Hrun. rewrite Heq in Hrun. split.
    + apply (load_v1_reads_instance _ _ _ _ (YStr url)) in Hrun as [= <-]; [done|done|].
      rewrite dict_get_set. by rewrite decide_True.
    + destruct (appends_load_v1
        (dict_set "instance" (YStr url) (dict_del "api_url" data)) (out ++ warnings))
        as [w Hw].
      rewrite Hrun in Hw. simpl in Hw. exists w. by rewrite (assoc_L (++)).
  - intros v Hinst.
    pose proof (migrate_api_url_instance data out api_url Hapi (mk_is_Some _ _ Hinst)) as Hm.
    assert (Hgone : dict_get "api_url" (dict_del "api_url" data) = None)
      by by rewrite dict_get_del.
    pose proof (load_v1_after_migration _ _ _ _ Hm Hgone) as Heq.
    split; [done|]. intros user_config out' Hrun. rewrite Heq in Hrun.
    eapply load_v1_reads_instance; [done| |done].
    by rewrite dict_get_del.
Qed.

Lemma same_dict_del key (data data' : dict) :
  same_but_deprecated_flags data data' →
  same_but_deprecated_flags (dict_del key data) (dict_del key data').
Proof.
  intros Hsame k H1 H2. rewrite !dict_get_del. case_decide; [done|]. by apply Hsame.
Qed.

Lemma same_dict_set key v (data data' : dict) :
  same_but_deprecated_flags data data' →
  same_but_deprecated_flags (dict_set key v data) (dict_set key v data').
Proof.
  intros Hsame k H1 H2. rewrite !dict_get_set. case_decide; [done|]. by apply Hsame.
Qed.

Lemma migrate_api_url_same (data data' : dict) out data1 out1 data1' out1' :
  same_but_deprecated_flags data data' →
  migrate_api_url data out = (Ok data1, out1) →
  migrate_api_url data' out = (Ok data1', out1') →
  same_but_deprecated_flags data1 data1'.
Proof.
  intros Hsame. unfold migrate_api_url, dict_pop.
  rewrite <- (Hsame "api_url") by done.
  destruct (dict_get "api_url" data) as [api_url|]; simpl;
    [|by intros [= <- _] [= <- _]].
  assert (dict_mem "instance" (dict_del "api_url" data')
          = dict_mem "instance" (dict_del "api_url" data)) as ->.
  { unfold dict_mem. rewrite !dict_get_del. simpl. by rewrite (Hsame "instance"). }
  destruct (dict_mem "instance" (dict_del "api_url" data)).
  - intros [= <- _] [= <- _]. by apply same_dict_del.
  - rewrite !M_bind_run. unfold call_api_to_dashboard_url.
    destruct (api_to_dashboard_url api_url true) as [[url|] w]; [|done].
    intros [= <- _] [= <- _]. by apply same_dict_set, same_dict_del.
Qed.

Lemma update_matches_ignore_same (data data' data2 data2' : dict) :
  same_but_deprecated_flags data data' →
  update_matches_ignore data = Ok data2 →
  update_matches_ignore data' = Ok data2' →
  same_but_deprecated_flags data2 data2'.
Proof.
  intros Hsame. unfold update_matches_ignore.
  rewrite <- (Hsame "matches_ignore") by done.
  destruct (dict_get "matches_ignore" data) as [v|]; [|by intros [= <-] [= <-]].
  destruct (negb (py_truthy v)); [by intros [= <-] [= <-]|].
  destruct v; try done. intros [= <-] [= <-]. by apply same_dict_set.
Qed.

Lemma load_field_same {A} key (load_value : yaml → result A) dflt (data data' : dict) :
  same_but_deprecated_flags data data' →
  key ≠ "all_policies" → key ≠ "ignore_default_excludes" →
  load_field key load_value dflt data' = load_field key load_value dflt data.
Proof. intros Hsame H1 H2. unfold load_field. by rewrite (Hsame key). Qed.

(** C9. Two version-1 documents that differ at most in [all_policies] and
    [ignore_default_excludes] and that both migrate, migrate to the same
    UserConfig: the two options reach no field of the result (they only
    decide which warnings are displayed); and the [iac] section of a
    migrated UserConfig is the default IaCConfig. *)
Theorem load_v1_ignores_deprecated_flags (data data' : dict) (out : list string)
    user_config user_config' out1 out2 :
  same_but_deprecated_flags data data' →
  load_v1 data out = (Ok user_config, out1) →
  load_v1 data' out = (Ok user_config', out2) →
  user_config = user_config' ∧ iac user_config = IaCConfig_default.
Proof.
  intros Hsame H H'.
  apply load_v1_Ok in H as (d1 & o1 & d2 & c & sec & Hm & Hu & Hs & Hp & ->).
  apply load_v1_Ok in H' as (d1' & o1' & d2' & c' & sec' & Hm' & Hu' & Hs' & Hp' & ->).
  pose proof (migrate_api_url_same _ _ _ _ _ _ _ Hsame Hm Hm') as Hsame1.
  pose proof (update_matches_ignore_same _ _ _ _ Hsame1 Hu Hu') as Hsame2.
  apply UserV1ConfigSchema_load_Ok in Hs
    as (Hi & _ & He & Hmi & Hpi & Hv & Ha & Hmc & _ & Hss & Hb).
  apply UserV1ConfigSchema_load_Ok in Hs'
    as (Hi' & _ & He' & Hmi' & Hpi' & Hv' & Ha' & Hmc' & _ & Hss' & Hb').
  rewrite (load_field_same _ _ _ _ _ Hsame2) in Hi' by done.
  rewrite (load_field_same _ _ _ _ _ Hsame2) in He' by done.
  rewrite (load_field_same _ _ _ _ _ Hsame2) in Hmi' by done.
  rewrite (load_field_same _ _ _ _ _ Hsame2) in Hpi' by done.
  rewrite (load_field_same _ _ _ _ _ Hsame2) in Hv' by done.
  rewrite (load_field_same _ _ _ _ _ Hsame2) in Ha' by done.
  rewrite (load_field_same _ _ _ _ _ Hsame2) in Hmc' by done.
  rewrite (load_field_same _ _ _ _ _ Hsame2) in Hss' by done.
  rewrite (load_field_same _ _ _ _ _ Hsame2) in Hb' by done.
  assert (v1_instance c' = v1_instance c) as Ei by congruence.
  assert (v1_exit_zero c' = v1_exit_zero c) as Ee by congruence.
  assert (matches_ignore c' = matches_ignore c) as Em by congruence.
  assert (paths_ignore c' = paths_ignore c) as Ep by congruence.
  assert (v1_verbose c' = v1_verbose c) as Ev by congruence.
  assert (v1_allow_self_signed c' = v1_allow_self_signed c) as Ea by congruence.
  assert (v1_max_commits_for_hook c' = v1_max_commits_for_hook c) as Ec by congruence.
  assert (v1_show_secrets c' = v1_show_secrets c) as Es by congruence.
  assert (banlisted_detectors c' = banlisted_detectors c) as Eb by congruence.
  rewrite Es, Eb, Em, Ep in Hp'. rewrite Hp in Hp'. injection Hp' as <-.
  split; [|done]. by rewrite Ei, Ee, Ev, Ea, Ec.
Qed.

(** ** Pruning against the defaults, field by field *)

Lemma dict_get_None_keys key (d : dict) : dict_get key d = None ↔ key ∉ d.*1.
Proof.
  induction d as [|[k v] d IH].
  - split; [intros _; apply not_elem_of_nil | done].
  - rewrite fmap_cons, not_elem_of_cons. simpl. destruct (decide (k = key)) as [->|].
    + split; [done | by intros [? _]].
    + rewrite IH. split; [by intros ? | by intros [_ ?]].
Qed.

Lemma dict_get_remove_common key prune (reference d : dict) :
  NoDup d.*1 →
  dict_get key (remove_common_with prune reference d) =
    match dict_get key d with
    | None => None
    | Some v =>
        match dict_get key reference with
        | Some r => prune v r
        | None => Some v
        end
    end.
Proof.
  induction d as [|[k v] d IH]; [done|].
  rewrite fmap_cons. intros [Hk Hnd]%NoDup_cons. specialize (IH Hnd). simpl in *.
  assert (Hrest : k = key → dict_get key (remove_common_with prune reference d) = None).
  { intros <-. rewrite IH. by apply dict_get_None_keys in Hk as ->. }
  destruct (decide (k = key)) as [->|Hne].
  - destruct (dict_get key reference) as [r|]; simpl; [|by rewrite decide_True].
    destruct (prune v r); simpl; [by rewrite decide_True | by apply Hrest].
  - destruct (dict_get k reference) as [r|]; simpl; [|by rewrite decide_False].
    destruct (prune v r); simpl; [by rewrite decide_False | done].
Qed.

Lemma remove_common_declared prune (reference d : dict) declared :
  Forall (λ k, k ∈ declared) d.*1 →
  check_unknown declared (remove_common_with prune reference d) = Ok tt.
Proof.
  clear get_global_path api_to_dashboard_url DEFAULT_LOCAL_CONFIG_PATH int_of_str.
  rewrite Forall_forall. intros Hd. unfold check_unknown. destruct unknown; [|done].
  assert (filter (λ kv : string * yaml, kv.1 ∉ declared)
            (remove_common_with prune reference d) = []) as ->; [|done].
  induction d as [|[k v] d IH]; [done|]. simpl.
  assert (Hk : k ∈ declared) by (apply Hd; rewrite fmap_cons; left).
  assert (IH' : filter (λ kv : string * yaml, kv.1 ∉ declared)
                  (remove_common_with prune reference d) = []).
  { apply IH. intros k' Hk'. apply Hd. rewrite fmap_cons. by right. }
  destruct (dict_get k reference) as [r|].
  - destruct (prune v r); [|done]. by rewrite filter_cons_False by (simpl; tauto).
  - by rewrite filter_cons_False by (simpl; tauto).
Qed.

Lemma load_field_pruned {A} key (load_value : yaml → result A) (dump_value : A → yaml)
    (dflt x : A) (d reference : dict) :
  NoDup d.*1 →
  dict_get key d = Some (dump_value x) →
  dict_get key reference = Some (dump_value dflt) →
  reloads load_value dump_value dflt x →
  load_field key load_value dflt (remove_common_with prune_value reference d) = Ok x.
Proof.
  intros Hnd Hd Hr Hre. unfold load_field, reloads in *.
  rewrite dict_get_remove_common, Hd, Hr by done.
  destruct (prune_value (dump_value x) (dump_value dflt)) as [v|]; [|by subst].
  by rewrite Hre.
Qed.

Lemma reloads_Boolean dflt x : reloads load_Boolean YBool dflt x.
Proof. unfold reloads. simpl. case_bool_decide; [done|]. done. Qed.

Lemma reloads_Integer dflt x : reloads load_Integer YInt dflt x.
Proof. unfold reloads. simpl. case_bool_decide; [done|]. done. Qed.

Lemma reloads_String dflt x : reloads load_String YStr dflt x.
Proof. unfold reloads. simpl. case_bool_decide; [done|]. done. Qed.

Lemma reloads_Optional_String x :
  reloads load_Optional_String dump_Optional_String None x.
Proof. unfold reloads. by destruct x. Qed.

Lemma traverse_load_String (l : list string) : traverse load_String (YStr <$> l) = Ok l.
Proof. induction l as [|x l IH]; [done|]. rewrite fmap_cons. simpl. by rewrite IH. Qed.

Lemma load_dump_Set_String (x : gset string) : load_Set_String (dump_Set_String x) = Ok x.
Proof.
  unfold load_Set_String, dump_Set_String, load_List.
  rewrite traverse_load_String. simpl. by rewrite list_to_set_elements_L.
Qed.

Lemma reloads_Set_String (x : gset string) :
  reloads load_Set_String dump_Set_String ∅ x.
Proof.
  unfold reloads.
  assert (dump_Set_String ∅ = YList []) as -> by (unfold dump_Set_String; by rewrite elements_empty).
  destruct (elements x) as [|a l] eqn:He.
  - apply elements_empty_inv, leibniz_equiv in He. subst x.
    unfold dump_Set_String. by rewrite elements_empty.
  - pose proof (load_dump_Set_String x) as Hl. unfold dump_Set_String in *.
    rewrite He in *. done.
Qed.

Lemma load_dump_IgnoredMatch m : load_IgnoredMatch (dump_IgnoredMatch m) = Ok m.
Proof.
  destruct m as [n h]. unfold load_IgnoredMatch, dump_IgnoredMatch, check_unknown.
  by destruct unknown.
Qed.

Lemma traverse_cons {A B} (f : A → result B) x xs :
  traverse f (x :: xs) = y ← f x; ys ← traverse f xs; Ok (y :: ys).
Proof. done. Qed.

Lemma traverse_load_IgnoredMatch ms :
  traverse load_IgnoredMatch (dump_IgnoredMatch <$> ms) = Ok ms.
Proof.
  induction ms as [|m ms IH]; [done|]. rewrite fmap_cons, traverse_cons.
  by rewrite load_dump_IgnoredMatch, IH.
Qed.

Lemma reloads_ignored_matches ms :
  reloads (load_List load_IgnoredMatch) (λ ms, YList (dump_IgnoredMatch <$> ms)) [] ms.
Proof.
  unfold reloads. destruct ms as [|m ms]; [done|].
  assert (prune_value (YList (dump_IgnoredMatch <$> m :: ms))
            (YList (dump_IgnoredMatch <$> []))
          = Some (YList (dump_IgnoredMatch <$> m :: ms))) as -> by done.
  apply traverse_load_IgnoredMatch.
Qed.

Lemma reloads_Nested {A} (load : dict → result A) (dump : A → dict) dflt x :
  load (remove_common_with prune_value (dump dflt) (dump x)) = Ok x →
  load [] = Ok dflt →
  reloads (load_Nested load) (λ c, YDict (dump c)) dflt x.
Proof.
  intros Hload Hempty. unfold reloads. simpl.
  destruct (remove_common_with prune_value (dump dflt) (dump x)) as [|item items].
  - congruence.
  - done.
Qed.

Lemma traverse_fixed {A} (f : A → result A) (xs : list A) :
  (∀ x, x ∈ xs → f x = Ok x) → traverse f xs = Ok xs.
Proof.
  induction xs as [|x xs IH]; intros Hf; [done|]. simpl.
  rewrite Hf by left. simpl. rewrite IH; [done|]. intros y Hy. apply Hf. by right.
Qed.

Ltac solve_keys :=
  match goal with
  | |- ?P => apply (bool_decide_unpack P); vm_compute; exact I
  end.

#[local] Arguments check_unknown : simpl never.

Lemma roundtrip_IaCConfig c :
  IaCConfigSchema_load
    (remove_common_with prune_value (dump_IaCConfig IaCConfig_default) (dump_IaCConfig c))
  = Ok c.
Proof.
  assert (Hnd : NoDup (dump_IaCConfig c).*1) by solve_keys.
  unfold IaCConfigSchema_load.
  rewrite (load_field_pruned "ignored_paths" _ dump_Set_String ∅ (iac_ignored_paths c))
    by (done || apply reloads_Set_String).
  rewrite (load_field_pruned "ignored_policies" _ dump_Set_String ∅ (ignored_policies c))
    by (done || apply reloads_Set_String).
  rewrite (load_field_pruned "minimum_severity" _ YStr "LOW" (minimum_severity c))
    by (done || apply reloads_String).
  rewrite remove_common_declared by solve_keys.
  by destruct c.
Qed.

Lemma roundtrip_SecretConfig c :
  (∀ m, m ∈ ignored_matches c → post_init_ignored_match m = Some m) →
  SecretConfigSchema_load
    (remove_common_with prune_value (dump_SecretConfig SecretConfig_default)
       (dump_SecretConfig c))
  = Ok c.
Proof.
  intros Hfixed.
  assert (Hnd : NoDup (dump_SecretConfig c).*1) by solve_keys.
  unfold SecretConfigSchema_load.
  rewrite (load_field_pruned "show_secrets" _ YBool false (show_secrets c))
    by (done || apply reloads_Boolean).
  rewrite (load_field_pruned "ignored_detectors" _ dump_Set_String ∅ (ignored_detectors c))
    by (done || apply reloads_Set_String).
  rewrite (load_field_pruned "ignored_matches" _
             (λ ms, YList (dump_IgnoredMatch <$> ms)) [] (ignored_matches c))
    by (done || apply reloads_ignored_matches).
  rewrite (load_field_pruned "ignored_paths" _ dump_Set_String ∅ (ignored_paths c))
    by (done || apply reloads_Set_String).
  rewrite remove_common_declared by solve_keys.
  unfold SecretConfig_post_init. simpl. rewrite traverse_fixed; [by destruct c|].
  intros m Hm. by rewrite Hfixed.
Qed.

Lemma IaCConfigSchema_load_empty : IaCConfigSchema_load [] = Ok IaCConfig_default.
Proof. unfold IaCConfigSchema_load, check_unknown. by destruct unknown. Qed.

Lemma SecretConfigSchema_load_empty : SecretConfigSchema_load [] = Ok SecretConfig_default.
Proof. unfold SecretConfigSchema_load, check_unknown. by destruct unknown. Qed.

Lemma roundtrip_UserConfig c :
  (∀ m, m ∈ ignored_matches (secret c) → post_init_ignored_match m = Some m) →
  UserConfigSchema_load
    (remove_common_dict_items (dump_UserConfig c) (dump_UserConfig UserConfig_default))
  = Ok c.
Proof.
  intros Hfixed.
  assert (Hnd : NoDup (dump_UserConfig c).*1) by solve_keys.
  unfold UserConfigSchema_load, remove_common_dict_items.
  rewrite (load_field_pruned "iac" _ (λ c, YDict (dump_IaCConfig c)) IaCConfig_default (iac c))
    by (done || (apply reloads_Nested;
                 [apply roundtrip_IaCConfig | apply IaCConfigSchema_load_empty])).
  rewrite (load_field_pruned "instance" _ dump_Optional_String None (instance c))
    by (done || apply reloads_Optional_String).
  rewrite (load_field_pruned "exit_zero" _ YBool false (exit_zero c))
    by (done || apply reloads_Boolean).
  rewrite (load_field_pruned "verbose" _ YBool false (verbose c))
    by (done || apply reloads_Boolean).
  rewrite (load_field_pruned "allow_self_signed" _ YBool false (allow_self_signed c))
    by (done || apply reloads_Boolean).
  rewrite (load_field_pruned "max_commits_for_hook" _ YInt 50 (max_commits_for_hook c))
    by (done || apply reloads_Integer).
  rewrite (load_field_pruned "secret" _ (λ c, YDict (dump_SecretConfig c))
             SecretConfig_default (secret c))
    by (done || (apply reloads_Nested;
                 [by apply roundtrip_SecretConfig | apply SecretConfigSchema_load_empty])).
  rewrite remove_common_declared by solve_keys.
  by destruct c.
Qed.

(** ** Saving and loading again *)

Lemma in_field_Ok {A} key (r : result A) a : in_field key r = Ok a → r = Ok a.
Proof. by destruct r as [|[]]. Qed.

Lemma traverse_Ok_elem {A B} (f : A → result B) xs ys y :
  traverse f xs = Ok ys → y ∈ ys → ∃ x, x ∈ xs ∧ f x = Ok y.
Proof.
  revert ys. induction xs as [|x xs IH]; intros ys; simpl.
  - intros [= <-] Hy. by apply elem_of_nil in Hy.
  - intros (y0 & Hx & (ys0 & Hxs & [= <-])%result_bind_Ok)%result_bind_Ok Hy.
    apply elem_of_cons in Hy as [->|Hy].
    + exists x. split; [left | done].
    + destruct (IH ys0 Hxs Hy) as (x' & Hx' & Hfx'). exists x'. split; [by right | done].
Qed.

Lemma SecretConfig_post_init_fixed self self' :
  (∀ m m', post_init_ignored_match m = Some m' → post_init_ignored_match m' = Some m') →
  SecretConfig_post_init self = Ok self' →
  ∀ m, m ∈ ignored_matches self' → post_init_ignored_match m = Some m.
Proof.
  intros Hidem. unfold SecretConfig_post_init.
  intros (ms & Htr & [= <-])%result_bind_Ok m Hm. simpl in Hm.
  destruct (traverse_Ok_elem _ _ _ _ Htr Hm) as (m0 & _ & Hm0).
  apply (Hidem m0). by destruct (post_init_ignored_match m0) as [m1|]; [injection Hm0 as ->|].
Qed.

Lemma UserConfigSchema_load_fixed (data : dict) user_config :
  (∀ m m', post_init_ignored_match m = Some m' → post_init_ignored_match m' = Some m') →
  UserConfigSchema_load data = Ok user_config →
  ∀ m, m ∈ ignored_matches (secret user_config) → post_init_ignored_match m = Some m.
Proof.
  intros Hidem H. unfold UserConfigSchema_load in H.
  repeat (apply result_bind_Ok in H as (? & ? & H)).
  injection H as <-. simpl.
  match goal with
  | Hs : load_field "secret" _ _ _ = Ok ?sc |- _ => rename Hs into Hsecret
  end.
  unfold load_field in Hsecret. destruct (dict_get "secret" data) as [v|].
  - apply in_field_Ok in Hsecret. destruct v; try done. simpl in Hsecret.
    unfold SecretConfigSchema_load in Hsecret.
    do 5 (apply result_bind_Ok in Hsecret as (? & ? & Hsecret)).
    by eapply SecretConfig_post_init_fixed.
  - injection Hsecret as <-. intros m Hm. by apply elem_of_nil in Hm.
Qed.

Lemma dict_del_set_fresh key v (d : dict) :
  dict_get key d = None → dict_del key (dict_set key v d) = d.
Proof.
  induction d as [|[k x] d IH]; simpl.
  - intros _. by rewrite decide_True.
  - destruct (decide (k = key)) as [->|Hne]; [done|]. intros Hget. simpl.
    rewrite decide_False by done. by rewrite IH.
Qed.

Lemma save_document_version self :
  pop_version (or_current_version (Some (save_document self UserConfig_default))) =
    (YInt 2, remove_common_dict_items (dump_UserConfig self)
               (dump_UserConfig UserConfig_default)) ∧
  dict_del "version" (save_document self UserConfig_default) =
    remove_common_dict_items (dump_UserConfig self) (dump_UserConfig UserConfig_default).
Proof.
  unfold save_document. set (P := remove_common_dict_items _ _).
  assert (Hfresh : dict_get "version" P = None).
  { unfold P, remove_common_dict_items.
    rewrite dict_get_remove_common by solve_keys. done. }
  split; [|by apply dict_del_set_fresh].
  assert (or_current_version (Some (dict_set "version" (YInt CURRENT_CONFIG_VERSION) P))
          = dict_set "version" (YInt CURRENT_CONFIG_VERSION) P) as ->.
  { destruct P as [|[k x] P']; simpl; [done|]. by destruct (decide (k = "version")). }
  unfold pop_version, dict_pop. rewrite dict_get_set, decide_True by done. simpl.
  by rewrite dict_del_set_fresh.
Qed.

(** C1. Let D be a version-2 document that validates to a UserConfig, and
    let [post_init_ignored_match] leave alone the entries it has produced.
    The document [save] computes for that UserConfig carries version 2 and,
    once its version is stripped, validates to the same UserConfig; through
    the files: [save] succeeds, and [_update_from_file] on the saved path
    succeeds and merges exactly that UserConfig onto the accumulator.  The
    equality is exact: a pruned key takes its default back on reload, and
    an empty collection is the default. *)
Theorem save_load_roundtrip (D : dict) (user_config : UserConfig) :
  (∀ m m', post_init_ignored_match m = Some m' → post_init_ignored_match m' = Some m') →
  dict_get "version" D = Some (YInt 2) →
  UserConfigSchema_load (dict_del "version" D) = Ok user_config →
  dict_get "version" (save_document user_config UserConfig_default) = Some (YInt 2) ∧
  UserConfigSchema_load (dict_del "version" (save_document user_config UserConfig_default))
    = Ok user_config ∧
  ∀ config_path (s : state), st_self s = user_config →
    ∃ s1, save config_path s = (Ok tt, s1) ∧
      ∀ accumulator,
        _update_from_file config_path
          (mkState accumulator (st_files s1) (st_console s1)) =
        (Ok tt, mkState (update_from_other_instance accumulator user_config)
                  (st_files s1) (st_console s1)).
Proof.
  intros Hidem _ Hvalid.
  pose proof (UserConfigSchema_load_fixed _ _ Hidem Hvalid) as Hfixed.
  pose proof (roundtrip_UserConfig user_config Hfixed) as Hround.
  destruct (save_document_version user_config) as [Hpop Hdel].
  split_and!.
  - unfold save_document. rewrite dict_get_set. by rewrite decide_True.
  - by rewrite Hdel.
  - intros config_path s Hself. eexists. split; [apply save_run|].
    intros accumulator. rewrite Hself. simpl.
    unfold _update_from_file. rewrite M_bind_run. unfold load_yaml. simpl.
    rewrite lookup_insert_eq, Hpop. rewrite M_bind_run.
    unfold except_ValidationError, load_versioned, lift.
    assert (py_eq_int (YInt 2) 2 = true) as -> by done.
    by rewrite Hround.
Qed.

(** * Further properties of the module *)

(** ** More on [add_ignored_match] *)

Lemma add_ignored_match_loop_app matches more secret :
  add_ignored_match_loop matches secret = None →
  add_ignored_match_loop (matches ++ more) secret
    = (matches ++.) <$> add_ignored_match_loop more secret.
Proof.
  induction matches as [|m rest IH]; simpl.
  - intros _. by destruct (add_ignored_match_loop more secret).
  - destruct (decide (match_ m = match_ secret)); [by destruct (decide (name m = ""))|].
    intros Hrest%fmap_None. rewrite (IH Hrest).
    by destruct (add_ignored_match_loop more secret).
Qed.

Lemma add_ignored_match_loop_again matches secret matches' :
  add_ignored_match_loop matches secret = Some matches' →
  add_ignored_match_loop matches' secret = Some matches'.
Proof.
  revert matches'. induction matches as [|m rest IH]; intros matches'; simpl; [done|].
  destruct (decide (match_ m = match_ secret)) as [Eh|Eh].
  - destruct (decide (name m = "")) as [En|En]; intros [= <-]; simpl.
    + rewrite decide_True by done. by destruct (decide (name secret = "")).
    + by rewrite decide_True, decide_False.
  - destruct (add_ignored_match_loop rest secret) as [rest'|] eqn:Hrest; [|done].
    intros [= <-]. simpl. rewrite decide_False by done. by rewrite (IH rest').
Qed.

(** X1. Ignoring the same secret twice is the same as ignoring it once,
    whatever the list held before. *)
Theorem add_ignored_match_idempotent (self : SecretConfig) (secret : IgnoredMatch) :
  add_ignored_match (add_ignored_match self secret) secret
  = add_ignored_match self secret.
Proof.
  unfold add_ignored_match.
  destruct (add_ignored_match_loop (ignored_matches self) secret) as [matches'|] eqn:Hloop;
    simpl.
  - by rewrite (add_ignored_match_loop_again _ _ _ Hloop).
  - rewrite (add_ignored_match_loop_app _ [secret] _ Hloop). simpl.
    rewrite decide_True by done. destruct secret as [n h]; simpl.
    by destruct (decide (n = "")) as [->|].
Qed.

Lemma add_ignored_match_loop_positions matches secret matches' :
  add_ignored_match_loop matches secret = Some matches' →
  length matches' = length matches ∧
  match_ secret ∈ match_ <$> matches' ∧
  ∀ i e, matches !! i = Some e →
    ∃ e', matches' !! i = Some e' ∧ match_ e' = match_ e ∧
      (e' = e ∨ (name e = "" ∧ match_ e = match_ secret ∧ name e' = name secret)).
Proof.
  revert matches'. induction matches as [|m rest IH]; intros matches'; simpl; [done|].
  destruct (decide (match_ m = match_ secret)) as [Eh|Eh].
  - destruct (decide (name m = "")) as [En|En]; intros [= <-].
    + split; [done|]. split; [rewrite fmap_cons; simpl; rewrite Eh; left|].
      intros [|i] e He; simpl in *.
      * injection He as <-. eexists. split; [done|]. split; [done|]. by right.
      * exists e. split; [done|]. split; [done|]. by left.
    + split; [done|]. split; [rewrite fmap_cons, Eh; left|].
      intros i e He. exists e. split; [done|]. split; [done|]. by left.
  - destruct (add_ignored_match_loop rest secret) as [rest'|] eqn:Hrest; [|done].
    intros [= <-]. destruct (IH rest' eq_refl) as (Hlen & Hin & Hpos).
    split; [simpl; by rewrite Hlen|]. split; [rewrite fmap_cons; by right|].
    intros [|i] e He; simpl in *.
    + injection He as <-. exists m. split; [done|]. split; [done|]. by left.
    + by apply Hpos.
Qed.

(** X2. After [add_ignored_match], on any list (duplicates or not): the
    secret's hash is in the list; the list has its old length or one more
    entry; every old position holds an entry with the same hash, which is
    the old entry itself unless that one was unnamed with the secret's hash
    and now carries the secret's name; no other setting changes. *)
Theorem add_ignored_match_effect (self : SecretConfig) (secret : IgnoredMatch) :
  let self' := add_ignored_match self secret in
  match_ secret ∈ match_ <$> ignored_matches self' ∧
  (length (ignored_matches self') = length (ignored_matches self) ∨
   length (ignored_matches self') = S (length (ignored_matches self))) ∧
  (∀ i e, ignored_matches self !! i = Some e →
     ∃ e', ignored_matches self' !! i = Some e' ∧ match_ e' = match_ e ∧
       (e' = e ∨ (name e = "" ∧ match_ e = match_ secret ∧ name e' = name secret))) ∧
  show_secrets self' = show_secrets self ∧
  ignored_detectors self' = ignored_detectors self ∧
  ignored_paths self' = ignored_paths self.
Proof.
  unfold add_ignored_match.
  destruct (add_ignored_match_loop (ignored_matches self) secret) as [matches'|] eqn:Hloop;
    simpl.
  - destruct (add_ignored_match_loop_positions _ _ _ Hloop) as (Hlen & Hin & Hpos).
    split_and!; try done. by left.
  - split_and!; try done.
    + rewrite fmap_app. apply elem_of_app. right. simpl. left.
    + right. rewrite length_app. simpl. lia.
    + intros i e He. exists e. split_and!; [|done|by left].
      rewrite lookup_app_l; [done|]. by eapply lookup_lt_Some.
Qed.

(** X3. Starting from a list with at most one entry per hash and adding any
    sequence of secrets through [add_ignored_match] gives a list with at
    most one entry per hash, whose hashes are exactly the old ones and those
    of the secrets added. *)
Theorem add_ignored_matches_unique (self : SecretConfig) (secrets : list IgnoredMatch) :
  unique_matches (ignored_matches self) →
  unique_matches (ignored_matches (foldl add_ignored_match self secrets)) ∧
  ∀ h, h ∈ match_ <$> ignored_matches (foldl add_ignored_match self secrets) ↔
       h ∈ match_ <$> ignored_matches self ∨ h ∈ match_ <$> secrets.
Proof.
  clear post_init_ignored_match get_global_path DEFAULT_LOCAL_CONFIG_PATH int_of_str.
  unfold unique_matches. revert self.
  induction secrets as [|secret secrets IH]; intros self Hu.
  - split; [done|]. intros h. rewrite fmap_nil, elem_of_nil. simpl. tauto.
  - assert (Hu' : NoDup (match_ <$> ignored_matches (add_ignored_match self secret))).
    { rewrite add_ignored_match_hashes. case_decide; [done|].
      apply NoDup_app. split_and!; [done| |apply NoDup_singleton].
      by intros h Hh ->%list_elem_of_singleton. }
    destruct (IH _ Hu') as [Hnd Hmem]. split; [exact Hnd|].
    intros h. rewrite fmap_cons, elem_of_cons. etrans; [apply Hmem|].
    rewrite add_ignored_match_hashes. case_decide as Hin.
    + split; [tauto|]. intros [?|[->|?]]; tauto.
    + rewrite elem_of_app, list_elem_of_singleton. tauto.
Qed.

(** ** More on the migrator *)

Lemma convert_match_idempotent entry : convert_match (convert_match entry) = convert_match entry.
Proof. by destruct entry. Qed.

(** X4. Normalizing [matches_ignore] twice is the same as normalizing it
    once: on the document [update_matches_ignore] returns, it changes
    nothing. *)
Theorem update_matches_ignore_idempotent (data data' : dict) :
  update_matches_ignore data = Ok data' →
  update_matches_ignore data' = Ok data'.
Proof.
  intros Hrun. pose proof Hrun as Hrun'. unfold update_matches_ignore in Hrun.
  destruct (dict_get "matches_ignore" data) as [v|] eqn:Hget; [|by injection Hrun as <-].
  destruct (negb (py_truthy v)) eqn:Hfalsy; [by injection Hrun as <-|].
  destruct v as [| | | |entries|]; try done. injection Hrun as <-.
  assert (Hget' : dict_get "matches_ignore"
            (dict_set "matches_ignore" (YList (convert_match <$> entries)) data)
          = Some (YList (convert_match <$> entries)))
    by (rewrite dict_get_set; by rewrite decide_True).
  rewrite (update_matches_ignore_list _ _ Hget'). f_equal.
  apply dict_set_id. rewrite Hget'. do 2 f_equal.
  rewrite <- list_fmap_compose. apply list_fmap_ext. intros _ entry _. simpl.
  symmetry. apply convert_match_idempotent.
Qed.

Lemma migrate_api_url_other_keys (data data1 : dict) out out1 key :
  migrate_api_url data out = (Ok data1, out1) →
  key ≠ "api_url" → key ≠ "instance" →
  dict_get key data1 = dict_get key data.
Proof.
  intros Hm H1 H2. unfold migrate_api_url, dict_pop in Hm.
  destruct (dict_get "api_url" data) as [api_url|]; simpl in Hm;
    [|by injection Hm as <- _].
  destruct (dict_mem "instance" (dict_del "api_url" data)).
  - injection Hm as <- _. rewrite dict_get_del. by rewrite decide_False.
  - rewrite M_bind_run in Hm. unfold call_api_to_dashboard_url in Hm.
    destruct (api_to_dashboard_url api_url true) as [[url|] w]; [|done].
    injection Hm as <- _. rewrite dict_get_set, decide_False by done.
    rewrite dict_get_del. by rewrite decide_False.
Qed.

Lemma load_v1_reads_key (data : dict) out uc out' :
  load_v1 data out = (Ok uc, out') →
  ∃ data2 v1config,
    UserV1ConfigSchema_load data2 = Ok v1config ∧
    SecretConfig_post_init
      (mkSecretConfig (v1_show_secrets v1config) (banlisted_detectors v1config)
         (matches_ignore v1config) (paths_ignore v1config)) = Ok (secret uc) ∧
    exit_zero uc = v1_exit_zero v1config ∧
    verbose uc = v1_verbose v1config ∧
    allow_self_signed uc = v1_allow_self_signed v1config ∧
    max_commits_for_hook uc = v1_max_commits_for_hook v1config ∧
    (∀ key, key ≠ "api_url" → key ≠ "instance" → key ≠ "matches_ignore" →
       dict_get key data2 = dict_get key data) ∧
    (∀ entries, dict_get "matches_ignore" data = Some (YList entries) →
       dict_get "matches_ignore" data2 = Some (YList (convert_match <$> entries))).
Proof.
  intros H.
  apply load_v1_Ok in H as (data1 & out1 & data2 & c & sec & Hm & Hu & Hs & Hp & ->).
  exists data2, c. split_and!; try done.
  - intros key H1 H2 H3.
    rewrite (update_matches_ignore_other_keys _ _ key Hu) by done.
    by apply (migrate_api_url_other_keys _ _ _ _ _ Hm).
  - intros entries Hget.
    rewrite <- (migrate_api_url_other_keys _ _ _ _ "matches_ignore" Hm) in Hget by done.
    rewrite (update_matches_ignore_list _ _ Hget) in Hu. injection Hu as <-.
    rewrite dict_get_set. by rewrite decide_True.
Qed.

Lemma SecretConfig_post_init_Ok self self' :
  SecretConfig_post_init self = Ok self' →
  show_secrets self' = show_secrets self ∧
  ignored_detectors self' = ignored_detectors self ∧
  ignored_paths self' = ignored_paths self ∧
  Forall2 (λ m m', post_init_ignored_match m = Some m')
    (ignored_matches self) (ignored_matches self').
Proof.
  unfold SecretConfig_post_init.
  intros (ms & Htr & [= <-])%result_bind_Ok. simpl. split_and!; try done.
  revert ms Htr. induction (ignored_matches self) as [|m l IH]; intros ms; simpl.
  - intros [= <-]. constructor.
  - intros (m' & Hm & (ms' & Hl & [= <-])%result_bind_Ok)%result_bind_Ok.
    constructor; [|by apply IH].
    by destruct (post_init_ignored_match m) as [m0|]; [injection Hm as ->|].
Qed.

(** X5. A version-1 document that lists its ignored matches as bare hashes
    migrates, when it migrates, to one entry per hash, in the same order:
    the entry [post_init_ignored_match] makes of the hash with an empty
    name. *)
Theorem load_v1_bare_hashes (data : dict) (out : list string) hashes uc out' :
  dict_get "matches_ignore" data = Some (YList (YStr <$> hashes)) →
  load_v1 data out = (Ok uc, out') →
  Forall2 (λ hash m, post_init_ignored_match (mkIgnoredMatch "" hash) = Some m)
    hashes (ignored_matches (secret uc)).
Proof.
  intros Hget Hrun.
  apply load_v1_reads_key in Hrun
    as (data2 & c & Hs & Hp & _ & _ & _ & _ & _ & Hmatches).
  specialize (Hmatches _ Hget).
  apply UserV1ConfigSchema_load_Ok in Hs as (_ & _ & _ & Hmi & _).
  unfold load_field in Hmi. rewrite Hmatches in Hmi. apply in_field_Ok in Hmi.
  unfold load_List in Hmi.
  assert (convert_match <$> (YStr <$> hashes)
          = dump_IgnoredMatch <$> (mkIgnoredMatch "" <$> hashes)) as Hshape
    by by rewrite <- !list_fmap_compose.
  rewrite Hshape, traverse_load_IgnoredMatch in Hmi. injection Hmi as Hmi.
  apply SecretConfig_post_init_Ok in Hp as (_ & _ & _ & Hall). simpl in Hall.
  rewrite <- Hmi in Hall. by apply Forall2_fmap_l in Hall.
Qed.

(** X7. The fields of a migrated UserConfig are the values the version-1
    document holds under the version-1 names, or the defaults where the
    document has no such key: [exit_zero], [verbose], [allow_self_signed]
    and [max_commits_for_hook] keep their names, [show_secrets] moves under
    [secret], [banlisted_detectors] becomes [secret.ignored_detectors] and
    [paths_ignore] becomes [secret.ignored_paths]. *)
Theorem load_v1_field_map (data : dict) (out : list string) uc out' :
  load_v1 data out = (Ok uc, out') →
  load_field "exit_zero" load_Boolean false data = Ok (exit_zero uc) ∧
  load_field "verbose" load_Boolean false data = Ok (verbose uc) ∧
  load_field "allow_self_signed" load_Boolean false data = Ok (allow_self_signed uc) ∧
  load_field "max_commits_for_hook" load_Integer 50 data = Ok (max_commits_for_hook uc) ∧
  load_field "show_secrets" load_Boolean false data = Ok (show_secrets (secret uc)) ∧
  load_field "banlisted_detectors" load_Set_String ∅ data
    = Ok (ignored_detectors (secret uc)) ∧
  load_field "paths_ignore" load_Set_String ∅ data = Ok (ignored_paths (secret uc)).
Proof.
  intros Hrun.
  apply load_v1_reads_key in Hrun
    as (data2 & c & Hs & Hp & -> & -> & -> & -> & Hkeys & _).
  apply SecretConfig_post_init_Ok in Hp as (-> & -> & -> & _). simpl.
  apply UserV1ConfigSchema_load_Ok in Hs
    as (_ & _ & He & _ & Hpi & Hv & Ha & Hmc & _ & Hss & Hb).
  unfold load_field in *.
  rewrite Hkeys in He, Hpi, Hv, Ha, Hmc, Hss, Hb by done.
  by split_and!.
Qed.

Lemma warning_if_Ok (b : bool) message (out out' : list string) a :
  (if b then display_warning message else mret tt) out = (Ok a, out') →
  out' = out ++ (if b then [message] else []).
Proof. destruct b; intros [= _ <-]; [done | by rewrite app_nil_r]. Qed.

Lemma migrate_api_url_console (data data1 : dict) out out1 :
  migrate_api_url data out = (Ok data1, out1) →
  out1 = out ++ match dict_get "api_url" data, dict_get "instance" data with
                | Some api_url, None => (api_to_dashboard_url api_url true).2
                | _, _ => []
                end.
Proof.
  destruct (dict_get "api_url" data) as [api_url|] eqn:Hapi.
  - destruct (dict_get "instance" data) as [v|] eqn:Hinst.
    + rewrite (migrate_api_url_instance _ _ _ Hapi) by by rewrite Hinst.
      intros [= _ <-]. by rewrite app_nil_r.
    + unfold migrate_api_url, dict_pop. rewrite Hapi. simpl.
      assert (dict_mem "instance" (dict_del "api_url" data) = false) as ->.
      { apply dict_mem_false. by rewrite dict_get_del. }
      rewrite M_bind_run. unfold call_api_to_dashboard_url.
      destruct (api_to_dashboard_url api_url true) as [[url|] w]; [|done].
      by intros [= _ <-].
  - rewrite migrate_api_url_absent by done. intros [= _ <-]. by rewrite app_nil_r.
Qed.

(** X8. What a successful migration writes to the console, exactly and in
    this order: the warnings of the [api_url] conversion (only when the
    document has [api_url] and no [instance]), then the [all_policies]
    warning if and only if the document sets [all_policies] to true, then
    the [ignore_default_excludes] warning if and only if the document sets
    that option to true. *)
Theorem load_v1_warnings (data : dict) (out : list string) uc out' :
  load_v1 data out = (Ok uc, out') →
  ∃ b1 b2,
    load_field "all_policies" load_Boolean false data = Ok b1 ∧
    load_field "ignore_default_excludes" load_Boolean false data = Ok b2 ∧
    out' = out
      ++ match dict_get "api_url" data, dict_get "instance" data with
         | Some api_url, None => (api_to_dashboard_url api_url true).2
         | _, _ => []
         end
      ++ (if b1 then [all_policies_warning] else [])
      ++ (if b2 then [ignore_default_excludes_warning] else []).
Proof.
  intros H. unfold load_v1 in H.
  apply M_bind_Ok in H as (data1 & out1 & Hm & H).
  apply M_bind_Ok in H as (data2 & ? & [Hu ->]%lift_Ok & H).
  apply M_bind_Ok in H as (c & ? & [Hs ->]%lift_Ok & H).
  apply M_bind_Ok in H as (? & out2 & Hw1%warning_if_Ok & H).
  apply M_bind_Ok in H as (? & out3 & Hw2%warning_if_Ok & H).
  apply M_bind_Ok in H as (sec & ? & [_ ->]%lift_Ok & H).
  injection H as _ <-.
  exists (all_policies c), (ignore_default_excludes c).
  apply UserV1ConfigSchema_load_Ok in Hs as (_ & Hap & _ & _ & _ & _ & _ & _ & Hid & _).
  unfold load_field in *.
  rewrite (update_matches_ignore_other_keys _ _ _ Hu) in Hap by done.
  rewrite (update_matches_ignore_other_keys _ _ _ Hu) in Hid by done.
  rewrite (migrate_api_url_other_keys _ _ _ _ _ Hm) in Hap by done.
  rewrite (migrate_api_url_other_keys _ _ _ _ _ Hm) in Hid by done.
  split_and!; [done|done|].
  rewrite Hw2, Hw1, (migrate_api_url_console _ _ _ _ Hm).
  by rewrite <- !(assoc_L (++)).
Qed.


(** ** What can be raised *)

Lemma ro_Ok {A} allowed (a : A) : raises_only allowed (Ok a).
Proof. by intros e. Qed.

Lemma ro_Raise {A} (allowed : exn → Prop) e : allowed e → raises_only allowed (@Raise A e).
Proof. by intros He e' [= <-]. Qed.

Lemma ro_mono {A} (P Q : exn → Prop) (r : result A) :
  (∀ e, P e → Q e) → raises_only P r → raises_only Q r.
Proof. intros HPQ Hr e He. by apply HPQ, Hr. Qed.

Lemma ro_bind {A B} allowed (r : result A) (f : A → result B) :
  raises_only allowed r → (∀ a, raises_only allowed (f a)) →
  raises_only allowed (r ≫= f).
Proof.
  intros Hr Hf. destruct r as [a|e]; [apply Hf|].
  intros e' [= <-]. by apply Hr.
Qed.

Lemma ro_fmap {A B} allowed (g : A → B) (r : result A) :
  raises_only allowed r → raises_only allowed (g <$> r).
Proof. intros Hr e. destruct r as [a|e']; [done|]. intros [= <-]. by apply Hr. Qed.

Lemma ro_traverse {A B} allowed (f : A → result B) (xs : list A) :
  (∀ x, raises_only allowed (f x)) → raises_only allowed (traverse f xs).
Proof.
  intros Hf. induction xs as [|x xs IH]; simpl; [apply ro_Ok|].
  apply ro_bind; [done|]. intros y. apply ro_bind; [done|]. intros ys. apply ro_Ok.
Qed.

Lemma ro_in_field {A} key (r : result A) :
  raises_only schema_exn r → raises_only schema_exn (in_field key r).
Proof.
  intros Hr e He. destruct r as [a|e0]; [done|].
  specialize (Hr e0 eq_refl). destruct e0; simpl in *; try done; by injection He as <-.
Qed.

Lemma ro_load_field {A} key (load_value : yaml → result A) dflt (data : dict) :
  (∀ v, raises_only schema_exn (load_value v)) →
  raises_only schema_exn (load_field key load_value dflt data).
Proof.
  intros Hl. unfold load_field. destruct (dict_get key data); [|apply ro_Ok].
  by apply ro_in_field.
Qed.

Lemma ro_load_required {A} key (load_value : yaml → result A) (data : dict) :
  (∀ v, raises_only schema_exn (load_value v)) →
  raises_only schema_exn (load_required key load_value data).
Proof.
  intros Hl. unfold load_required. destruct (dict_get key data); [|by apply ro_Raise].
  by apply ro_in_field.
Qed.

Lemma ro_load_Boolean v : raises_only schema_exn (load_Boolean v).
Proof. destruct v; simpl; repeat case_decide; by intros e [= <-]. Qed.

Lemma ro_load_Integer v : raises_only schema_exn (load_Integer v).
Proof.
  destruct v; simpl; try (by intros e [= <-]).
  destruct (int_of_str s); by intros e [= <-].
Qed.

Lemma ro_load_String v : raises_only schema_exn (load_String v).
Proof. destruct v; by intros e [= <-]. Qed.

Lemma ro_load_Optional_String v : raises_only schema_exn (load_Optional_String v).
Proof. destruct v; by intros e [= <-]. Qed.

Lemma ro_load_List {A} (load_item : yaml → result A) v :
  (∀ x, raises_only schema_exn (load_item x)) →
  raises_only schema_exn (load_List load_item v).
Proof.
  intros Hl. destruct v; try (by intros e [= <-]). by apply ro_traverse.
Qed.

Lemma ro_load_Set_String v : raises_only schema_exn (load_Set_String v).
Proof. apply ro_fmap, ro_load_List, ro_load_String. Qed.

Lemma ro_load_Nested {A} (load : dict → result A) v :
  (∀ d, raises_only schema_exn (load d)) → raises_only schema_exn (load_Nested load v).
Proof. intros Hl. destruct v; try (by intros e [= <-]). apply Hl. Qed.

Lemma ro_check_unknown declared (data : dict) :
  raises_only schema_exn (check_unknown declared data).
Proof.
  unfold check_unknown. destruct unknown; [|apply ro_Ok].
  destruct (filter _ data) as [|[] ?]; [apply ro_Ok | by apply ro_Raise].
Qed.

Create HintDb raises discriminated.

#[local] Hint Resolve ro_Ok ro_load_Boolean ro_load_Integer ro_load_String
  ro_load_Optional_String ro_load_Set_String ro_check_unknown : raises.
#[local] Hint Extern 2 (raises_only _ (_ ≫= _)) => apply ro_bind; [|intros ?] : raises.
#[local] Hint Extern 1 (raises_only _ (load_field _ _ _ _)) =>
  apply ro_load_field; intros ? : raises.
#[local] Hint Extern 1 (raises_only _ (load_required _ _ _)) =>
  apply ro_load_required; intros ? : raises.
#[local] Hint Extern 1 (raises_only _ (load_List _ _)) =>
  apply ro_load_List; intros ? : raises.
#[local] Hint Extern 1 (raises_only _ (load_Nested _ _)) =>
  apply ro_load_Nested; intros ? : raises.

Lemma ro_load_IgnoredMatch v : raises_only schema_exn (load_IgnoredMatch v).
Proof.
  destruct v; try (by intros e [= <-]). unfold load_IgnoredMatch. auto 10 with raises.
Qed.

#[local] Hint Resolve ro_load_IgnoredMatch : raises.

Lemma ro_SecretConfig_post_init self : raises_only schema_exn (SecretConfig_post_init self).
Proof.
  unfold SecretConfig_post_init. apply ro_bind; [|auto with raises].
  apply ro_traverse. intros m. destruct (post_init_ignored_match m); [apply ro_Ok|].
  by apply ro_Raise.
Qed.

#[local] Hint Resolve ro_SecretConfig_post_init : raises.

Lemma ro_IaCConfigSchema_load (data : dict) : raises_only schema_exn (IaCConfigSchema_load data).
Proof. unfold IaCConfigSchema_load. auto 20 with raises. Qed.

Lemma ro_SecretConfigSchema_load (data : dict) :
  raises_only schema_exn (SecretConfigSchema_load data).
Proof. unfold SecretConfigSchema_load. auto 20 with raises. Qed.

#[local] Hint Resolve ro_IaCConfigSchema_load ro_SecretConfigSchema_load : raises.

Lemma ro_UserConfigSchema_load (data : dict) :
  raises_only schema_exn (UserConfigSchema_load data).
Proof. unfold UserConfigSchema_load. auto 30 with raises. Qed.

Lemma ro_UserV1ConfigSchema_load (data : dict) :
  raises_only schema_exn (UserV1ConfigSchema_load data).
Proof. unfold UserV1ConfigSchema_load. auto 40 with raises. Qed.

Lemma ro_update_matches_ignore (data : dict) :
  raises_only migrator_exn (update_matches_ignore data).
Proof.
  unfold update_matches_ignore. destruct (dict_get _ data) as [v|]; [|apply ro_Ok].
  destruct (negb (py_truthy v)); [apply ro_Ok|].
  destruct v; (apply ro_Ok || by apply ro_Raise).
Qed.

Lemma schema_migrator_exn e : schema_exn e → migrator_exn e.
Proof. by destruct e. Qed.

Lemma M_ro_bind {S A B} allowed (c : M S A) (f : A → M S B) :
  (∀ s, raises_only allowed (c s).1) →
  (∀ a s, raises_only allowed (f a s).1) →
  ∀ s, raises_only allowed ((c ≫= f) s).1.
Proof.
  intros Hc Hf s. rewrite M_bind_run. specialize (Hc s).
  destruct (c s) as [[a|e] s']; [apply Hf|].
  intros e' [= <-]. by apply Hc.
Qed.

Lemma ro_migrate_api_url (data : dict) out :
  raises_only migrator_exn (migrate_api_url data out).1.
Proof.
  unfold migrate_api_url. destruct (dict_pop "api_url" data) as [[api_url data']|];
    [|apply ro_Ok].
  destruct (dict_mem "instance" data'); [apply ro_Ok|].
  rewrite M_bind_run. unfold call_api_to_dashboard_url.
  destruct (api_to_dashboard_url api_url true) as [[url|] w];
    [apply ro_Ok | by apply ro_Raise].
Qed.

Lemma ro_load_v1 (data : dict) out : raises_only migrator_exn (load_v1 data out).1.
Proof.
  revert out. unfold load_v1.
  apply M_ro_bind; [apply ro_migrate_api_url|]. intros data1.
  apply M_ro_bind; [intros out; apply ro_update_matches_ignore|]. intros data2.
  apply M_ro_bind.
  { intros out. eapply ro_mono; [apply schema_migrator_exn|].
    apply ro_UserV1ConfigSchema_load. }
  intros v1config.
  apply M_ro_bind; [intros out; destruct (all_policies v1config); apply ro_Ok|]. intros _.
  apply M_ro_bind;
    [intros out; destruct (ignore_default_excludes v1config); apply ro_Ok|]. intros _.
  apply M_ro_bind.
  { intros out. eapply ro_mono; [apply schema_migrator_exn|].
    apply ro_SecretConfig_post_init. }
  intros secret_ out. apply ro_Ok.
Qed.

(** X9. Whatever the file holds, [_update_from_file] never lets a
    marshmallow ValidationError out, and every ParseError it raises names
    the file it was loading. *)
Theorem update_from_file_raises config_path (s : state) :
  raises_only (update_exn config_path) (_update_from_file config_path s).1.
Proof.
  unfold _update_from_file. rewrite M_bind_run. unfold load_yaml.
  assert (Hbody : ∀ loaded s0, raises_only (update_exn config_path)
    ((let '(config_version, data) := pop_version (or_current_version loaded) in
      obj ← except_ValidationError (load_versioned config_path config_version data)
              (ParseError config_path);
      self ← get_self;
      set_self (update_from_other_instance self obj)) s0).1).
  { intros loaded s0. destruct (pop_version (or_current_version loaded)) as [v data].
    rewrite M_bind_run. unfold except_ValidationError.
    assert (Hinner : raises_only
              (λ e, migrator_exn e ∨ ∃ cv, e = ClickException cv)
              (load_versioned config_path v data s0).1).
    { unfold load_versioned. destruct (py_eq_int v 2).
      - eapply ro_mono; [|apply ro_UserConfigSchema_load].
        intros e He. left. by apply schema_migrator_exn.
      - destruct (py_eq_int v 1); [|apply ro_Raise; right; by exists v].
        rewrite M_bind_run. unfold on_console. simpl.
        pose proof (ro_load_v1 data
                      (st_console s0 ++ [deprecated_format_warning config_path])) as Hv1.
        destruct (load_v1 data _) as [r out']. simpl in *.
        eapply ro_mono; [|exact Hv1]. intros e He. by left. }
    destruct (load_versioned config_path v data s0) as [[obj|e] s1]; simpl in *.
    - by intros e.
    - specialize (Hinner e eq_refl).
      destruct e; intros e' [= <-]; simpl; try done.
      destruct Hinner as [[]|[cv [=]]]. }
  destruct (st_files s !! config_path) as [[|document]|].
  - by apply ro_Raise.
  - apply Hbody.
  - apply Hbody.
Qed.

(** X10. A document whose [version] equals 2 is validated against the
    current schema once the [version] key has been taken out: when it
    validates, the result is merged onto the accumulator; when it does not,
    the ValidationError becomes a ParseError with the file's path and the
    accumulator stays as it was.  Nothing is written to the console or to
    the files in either case. *)
Theorem version_2_validates config_path (s : state) (data : dict) v :
  st_files s !! config_path = Some (Yaml data) →
  dict_get "version" data = Some v →
  py_eq_int v 2 = true →
  _update_from_file config_path s =
    match UserConfigSchema_load (dict_del "version" data) with
    | Ok obj =>
        (Ok tt, mkState (update_from_other_instance (st_self s) obj)
                  (st_files s) (st_console s))
    | Raise (ValidationError field_path) =>
        (Raise (ParseError config_path field_path), s)
    | Raise e => (Raise e, s)
    end.
Proof.
  intros Hf Hver Hv. destruct s as [u fs out]. simpl in *.
  unfold _update_from_file. rewrite M_bind_run. unfold load_yaml. simpl. rewrite Hf.
  assert (or_current_version (Some data) = data) as ->
    by (destruct data; [done | reflexivity]).
  assert (pop_version data = (v, dict_del "version" data)) as ->
    by (unfold pop_version, dict_pop; by rewrite Hver).
  rewrite M_bind_run. unfold except_ValidationError, load_versioned. rewrite Hv.
  unfold lift.
  by destruct (UserConfigSchema_load (dict_del "version" data)) as [obj|[]].
Qed.

(** ** Discovery of the configuration files *)

Lemma first_existing_cons (files : gmap string file) path paths :
  first_existing files (path :: paths) =
    if bool_decide (is_Some (files !! path)) then Some path
    else first_existing files paths.
Proof.
  unfold first_existing. case_bool_decide.
  - by rewrite filter_cons_True.
  - by rewrite filter_cons_False.
Qed.

Lemma first_existing_None (files : gmap string file) paths :
  Forall (λ path, files !! path = None) paths → first_existing files paths = None.
Proof.
  induction 1 as [|path paths Hp _ IH]; [done|].
  rewrite first_existing_cons, Hp, bool_decide_eq_false_2; [done|]. by intros [? ?].
Qed.

Lemma first_existing_Some (files : gmap string file) paths path :
  first_existing files paths = Some path → path ∈ paths ∧ is_Some (files !! path).
Proof.
  induction paths as [|p paths IH]; [done|]. rewrite first_existing_cons.
  case_bool_decide as Hp.
  - intros [= <-]. split; [left | done].
  - intros [Hin Hsome]%IH. split; [by right | done].
Qed.

Lemma _update_from_file_files config_path (s : state) :
  st_files (_update_from_file config_path s).2 = st_files s.
Proof.
  destruct (_update_from_file_frame config_path (st_files s !! config_path)) as [c Hc].
  rewrite Hc by done. by destruct (c (st_console s)) as [[obj|e] out].
Qed.

Lemma load_global_run filenames (s : state) :
  load_global filenames s =
    match first_existing (st_files s) (get_global_path <$> filenames) with
    | Some global_config_path => _update_from_file global_config_path s
    | None => (Ok tt, s)
    end.
Proof.
  induction filenames as [|filename filenames IH]; [done|].
  rewrite fmap_cons, first_existing_cons. simpl. rewrite M_bind_run.
  unfold os_path_exists. by case_bool_decide.
Qed.

Lemma load_local_run paths config_path (s : state) :
  load_local paths config_path s =
    match first_existing (st_files s) paths with
    | Some local_config_path =>
        (_update_from_file local_config_path;; mret (Some local_config_path)) s
    | None => (Ok config_path, s)
    end.
Proof.
  induction paths as [|path paths IH]; [done|].
  rewrite first_existing_cons. simpl. rewrite M_bind_run.
  unfold os_path_exists. by case_bool_decide.
Qed.

(** X12. Without an explicit path (None, or the empty string), [load] reads
    at most two files, in this order: the first global candidate that
    exists, then the first local candidate that exists, each merged onto
    the object the previous step left; candidates after the first existing
    one of a tier are not read.  The path returned is the first existing
    local candidate, else the default local path (else the empty string,
    when the empty string was passed). *)
Theorem load_discovery (config_path : option string) (s : state) :
  path_given config_path = None →
  load config_path s =
    (set_self UserConfig_default;;
     match first_existing (st_files s) (get_global_path <$> GLOBAL_CONFIG_FILENAMES) with
     | Some global_config_path => _update_from_file global_config_path
     | None => mret tt
     end;;
     match first_existing (st_files s) LOCAL_CONFIG_PATHS with
     | Some local_config_path => _update_from_file local_config_path
     | None => mret tt
     end;;
     uc ← get_self;
     mret (uc, match first_existing (st_files s) LOCAL_CONFIG_PATHS with
               | Some local_config_path => local_config_path
               | None => default DEFAULT_LOCAL_CONFIG_PATH config_path
               end)) s.
Proof.
  intros Hnone. unfold load. rewrite Hnone.
  rewrite !(M_bind_run (set_self UserConfig_default)). simpl.
  set (s0 := mkState UserConfig_default (st_files s) (st_console s)).
  rewrite !(M_bind_run _ _ s0), load_global_run.
  change (st_files s0) with (st_files s).
  assert (Hlocal : ∀ s1, st_files s1 = st_files s →
    (config_path0 ← load_local LOCAL_CONFIG_PATHS config_path;
     user_config0 ← get_self;
     mret (user_config0, default DEFAULT_LOCAL_CONFIG_PATH config_path0)) s1 =
    (match first_existing (st_files s) LOCAL_CONFIG_PATHS with
     | Some local_config_path => _update_from_file local_config_path
     | None => mret tt
     end;;
     uc ← get_self;
     mret (uc, match first_existing (st_files s) LOCAL_CONFIG_PATHS with
               | Some local_config_path => local_config_path
               | None => default DEFAULT_LOCAL_CONFIG_PATH config_path
               end)) s1).
  { intros s1 Hfiles. rewrite !M_bind_run, load_local_run, Hfiles.
    destruct (first_existing (st_files s) LOCAL_CONFIG_PATHS) as [pl|]; [|done].
    rewrite M_bind_run. by destruct (_update_from_file pl s1) as [[[]|e] s2]. }
  destruct (first_existing (st_files s) (get_global_path <$> GLOBAL_CONFIG_FILENAMES))
    as [pg|].
  - pose proof (_update_from_file_files pg s0) as Hfiles.
    destruct (_update_from_file pg s0) as [[[]|e] s1]; [|done]. by apply Hlocal.
  - by apply Hlocal.
Qed.

(** X11. Without an explicit path and with no file at any global or local
    candidate, [load] returns the default UserConfig and the default local
    path (the empty string itself when the empty string was passed as the
    path); it displays nothing and leaves the files alone. *)
Theorem load_nothing_to_discover (config_path : option string) (s : state) :
  path_given config_path = None →
  Forall (λ filename, st_files s !! get_global_path filename = None)
    GLOBAL_CONFIG_FILENAMES →
  Forall (λ path, st_files s !! path = None) LOCAL_CONFIG_PATHS →
  load config_path s =
    (Ok (UserConfig_default, default DEFAULT_LOCAL_CONFIG_PATH config_path),
     mkState UserConfig_default (st_files s) (st_console s)).
Proof.
  intros Hnone Hglobal Hlocal. unfold load. rewrite Hnone.
  rewrite M_bind_run. simpl. rewrite M_bind_run, load_global_run. simpl.
  rewrite first_existing_None by by apply Forall_fmap.
  rewrite M_bind_run, load_local_run. simpl.
  by rewrite first_existing_None.
Qed.

(** X13. When the global file that discovery picks fails to load, [load]
    raises that exception as it is and stops: the state is the one the
    failed [_update_from_file] left, so no local file has been read and no
    warning about one displayed. *)
Theorem load_global_error_aborts (config_path : option string) (s : state)
    global_config_path e s1 :
  path_given config_path = None →
  first_existing (st_files s) (get_global_path <$> GLOBAL_CONFIG_FILENAMES)
    = Some global_config_path →
  _update_from_file global_config_path
    (mkState UserConfig_default (st_files s) (st_console s)) = (Raise e, s1) →
  load config_path s = (Raise e, s1).
Proof.
  intros Hnone Hfirst Hfail. unfold load. rewrite Hnone.
  rewrite M_bind_run. simpl. rewrite M_bind_run, load_global_run. simpl.
  by rewrite Hfirst, Hfail.
Qed.

(** X14. [load] never changes the files, whatever path it is given and
    whether it returns or raises. *)
Theorem load_keeps_files (config_path : option string) (s : state) :
  st_files (load config_path s).2 = st_files s.
Proof.
  assert (Hbind : ∀ A B (c : M state A) (f : A → M state B),
    (∀ s0, st_files (c s0).2 = st_files s0) →
    (∀ a s0, st_files (f a s0).2 = st_files s0) →
    ∀ s0, st_files ((c ≫= f) s0).2 = st_files s0).
  { intros A B c f Hc Hf s0. rewrite M_bind_run. specialize (Hc s0).
    destruct (c s0) as [[a|e] s1]; simpl in *; [|done]. by rewrite Hf. }
  assert (Hglobal : ∀ s0, st_files (load_global GLOBAL_CONFIG_FILENAMES s0).2 = st_files s0).
  { intros s0. rewrite load_global_run.
    destruct (first_existing _ _); [apply _update_from_file_files | done]. }
  assert (Hlocal : ∀ s0,
    st_files (load_local LOCAL_CONFIG_PATHS config_path s0).2 = st_files s0).
  { intros s0. rewrite load_local_run. destruct (first_existing _ _) as [pl|]; [|done].
    apply Hbind; [apply _update_from_file_files | done]. }
  revert s. unfold load. apply Hbind; [done|]. intros _.
  destruct (path_given config_path) as [p|].
  - apply Hbind; [apply _update_from_file_files|]. intros _. by apply Hbind.
  - apply Hbind; [apply Hglobal|]. intros _.
    apply Hbind; [apply Hlocal|]. intros cp. by apply Hbind.
Qed.

(** ** Updating a configuration file in place *)

Lemma _update_from_file_Ok config_path (s s' : state) :
  _update_from_file config_path s = (Ok tt, s') →
  ∃ obj,
    st_self s' = update_from_other_instance (st_self s) obj ∧
    ((∃ data, UserConfigSchema_load data = Ok obj) ∨
     (∃ data out out', load_v1 data out = (Ok obj, out'))).
Proof.
  unfold _update_from_file. intros H.
  apply M_bind_Ok in H as (loaded & s0 & Hyaml & H).
  assert (s0 = s) as ->.
  { unfold load_yaml in Hyaml.
    destruct (st_files s !! config_path) as [[|document]|]; by injection Hyaml. }
  destruct (pop_version (or_current_version loaded)) as [v data].
  apply M_bind_Ok in H as (obj & s1 & Hload & H).
  apply M_bind_Ok in H as (self & s2 & [= <- <-] & [= <-]).
  exists obj. split; [done|].
  unfold except_ValidationError in Hload.
  destruct (load_versioned config_path v data s) as [[obj'|e] s1'] eqn:Hv;
    [|by destruct e].
  injection Hload as -> ->. unfold load_versioned in Hv.
  destruct (py_eq_int v 2).
  - left. exists data. by apply lift_Ok in Hv as [? _].
  - destruct (py_eq_int v 1); [|done].
    apply M_bind_Ok in Hv as (? & s3 & _ & Hv). unfold on_console in Hv.
    destruct (load_v1 data (st_console s3)) as [r out'] eqn:Hl.
    injection Hv as -> _. right. by exists data, (st_console s3), out'.
Qed.

Lemma update_from_other_instance_copy dst src : update_from_other_instance dst src = src.
Proof. by destruct src as [[] ? ? ? ? ? []]. Qed.

(** X15. With remove_common_dict_items, update_from_other_instance and the
    YAML codec as modelled, and a [post_init_ignored_match] that leaves
    alone the entries it has produced: when [load] on a non-empty explicit
    path returns a UserConfig (from a version-1 or a version-2 file),
    [config_update_cmd] on that UserConfig and path succeeds, displays
    nothing, touches no other file and leaves at the path a document with
    [version: 2]; loading the path again returns the same UserConfig and
    displays nothing, so a version-1 file has been migrated in place. *)
Theorem config_update_migrates (p : string) (s s1 : state) (uc : UserConfig) :
  (∀ m m', post_init_ignored_match m = Some m' → post_init_ignored_match m' = Some m') →
  p ≠ "" →
  load (Some p) s = (Ok (uc, p), s1) →
  ∃ s2,
    config_update_cmd (mkConfig uc p) s1 = (Ok tt, s2) ∧
    (∃ dct, st_files s2 !! p = Some (Yaml dct) ∧ dict_get "version" dct = Some (YInt 2)) ∧
    (∀ q, q ≠ p → st_files s2 !! q = st_files s1 !! q) ∧
    st_console s2 = st_console s1 ∧
    load (Some p) s2 = (Ok (uc, p), mkState uc (st_files s2) (st_console s2)).
Proof.
  intros Hidem Hp Hload.
  assert (Hfixed : ∀ m, m ∈ ignored_matches (secret uc) →
                        post_init_ignored_match m = Some m).
  { unfold load, path_given in Hload. rewrite decide_False in Hload by done.
    apply M_bind_Ok in Hload as (? & s0 & _ & Hload).
    apply M_bind_Ok in Hload as ([] & s0' & Hupd & Hload).
    apply M_bind_Ok in Hload as (? & ? & [= <- <-] & [= <- _]).
    apply _update_from_file_Ok in Hupd as (obj & -> & Hobj).
    rewrite update_from_other_instance_copy.
    destruct Hobj as [[data Hv2] | (data & out & out' & Hv1)].
    - by eapply UserConfigSchema_load_fixed.
    - apply load_v1_Ok in Hv1 as (? & ? & ? & c & sec & _ & _ & _ & Hpost & ->).
      by eapply SecretConfig_post_init_fixed. }
  pose proof (roundtrip_UserConfig uc Hfixed) as Hround.
  destruct (save_document_version uc) as [Hpop _].
  eexists. split.
  { unfold config_update_cmd. rewrite M_bind_run. simpl. apply save_run. }
  simpl. split_and!.
  - eexists. split; [apply lookup_insert_eq|].
    unfold save_document. rewrite dict_get_set. by rewrite decide_True.
  - intros q Hq. by rewrite lookup_insert_ne.
  - done.
  - unfold load, path_given. rewrite decide_False by done.
    rewrite M_bind_run. simpl. rewrite M_bind_run.
    unfold _update_from_file. rewrite M_bind_run. unfold load_yaml. simpl.
    rewrite lookup_insert_eq, Hpop. rewrite M_bind_run.
    unfold except_ValidationError, load_versioned, lift.
    assert (py_eq_int (YInt 2) 2 = true) as -> by done.
    rewrite Hround. simpl. by rewrite update_from_other_instance_copy.
Qed.

End UserConfigModule.

(** * The module on concrete documents *)

Lemma add_ignored_match_spec_witness :
  unique_matches [mkIgnoredMatch "" "deadbeef"] ∧
  add_ignored_match (mkSecretConfig false ∅ [mkIgnoredMatch "" "deadbeef"] ∅)
    (mkIgnoredMatch "x" "deadbeef")
  = mkSecretConfig false ∅ [mkIgnoredMatch "x" "deadbeef"] ∅.
Proof.
  assert (Hu : unique_matches [mkIgnoredMatch "" "deadbeef"]) by apply NoDup_singleton.
  split; [exact Hu|].
  exact (proj1 (proj2 (add_ignored_match_spec
                         (mkSecretConfig false ∅ [mkIgnoredMatch "" "deadbeef"] ∅)
                         (mkIgnoredMatch "x" "deadbeef") Hu))
           0%nat (mkIgnoredMatch "" "deadbeef") eq_refl eq_refl eq_refl).
Defined.

Lemma update_matches_ignore_spec_witness :
  ∃ entries',
    update_matches_ignore
      [("matches_ignore",
        YList [YStr "deadbeef"; YDict [("name", YStr "n"); ("match", YStr "cafe")]])]
    = Ok [("matches_ignore", YList entries')] ∧
    entries' !! 0%nat = Some (YDict [("name", YStr ""); ("match", YStr "deadbeef")]) ∧
    entries' !! 1%nat = Some (YDict [("name", YStr "n"); ("match", YStr "cafe")]).
Proof.
  destruct (proj1 (update_matches_ignore_spec
              [("matches_ignore",
                YList [YStr "deadbeef";
                       YDict [("name", YStr "n"); ("match", YStr "cafe")]])])
              _ eq_refl) as (entries' & Hrun & _ & _ & Hstr & Hobj).
  exists entries'. split_and!.
  - exact Hrun.
  - exact (Hstr 0%nat "deadbeef" eq_refl).
  - apply (Hobj 1%nat); [reflexivity | discriminate].
Defined.

Lemma save_writes_version_witness :
  save RAISE decimal_int_of_str Some ".gitguardian.yaml" (mkState UserConfig_default ∅ [])
  = (Ok tt, mkState UserConfig_default
              (<[".gitguardian.yaml" := Yaml [("version", YInt 2)]]> ∅) []).
Proof.
  exact (proj1 (save_writes_version RAISE decimal_int_of_str Some ".gitguardian.yaml"
                  (mkState UserConfig_default ∅ [])) eq_refl).
Defined.

Lemma unsupported_version_is_fatal_witness :
  _update_from_file RAISE decimal_int_of_str Some saas_api_to_dashboard_url ".gitguardian.yaml"
    (mkState UserConfig_default {[ ".gitguardian.yaml" := Yaml [("version", YInt 99)] ]} [])
  = (Raise (ClickException (YInt 99)),
     mkState UserConfig_default {[ ".gitguardian.yaml" := Yaml [("version", YInt 99)] ]} []).
Proof.
  apply (proj1 (unsupported_version_is_fatal RAISE decimal_int_of_str Some saas_api_to_dashboard_url
                  ".gitguardian.yaml"
                  (mkState UserConfig_default
                     {[ ".gitguardian.yaml" := Yaml [("version", YInt 99)] ]} []))
           [("version", YInt 99)] (YInt 99)).
  - vm_compute. reflexivity.
  - reflexivity.
  - reflexivity.
  - reflexivity.
Defined.

Lemma missing_version_is_v1_witness :
  st_console
    (_update_from_file RAISE decimal_int_of_str Some saas_api_to_dashboard_url ".gitguardian.yaml"
       (mkState UserConfig_default
          {[ ".gitguardian.yaml" := Yaml [("verbose", YBool true)] ]} [])).2
  ≠ [] ∧
  not_ClickException
    (_update_from_file RAISE decimal_int_of_str Some saas_api_to_dashboard_url ".gitguardian.yaml"
       (mkState UserConfig_default
          {[ ".gitguardian.yaml" := Yaml [("verbose", YBool true)] ]} [])).1.
Proof.
  destruct (proj1 (missing_version_is_v1 RAISE decimal_int_of_str Some saas_api_to_dashboard_url
                     ".gitguardian.yaml"
                     (mkState UserConfig_default
                        {[ ".gitguardian.yaml" := Yaml [("verbose", YBool true)] ]} []))
              [("verbose", YBool true)])
    as (_ & [w Hw] & Hnc).
  - vm_compute. reflexivity.
  - discriminate.
  - reflexivity.
  - split; [|exact Hnc]. rewrite Hw. discriminate.
Defined.

Lemma explicit_path_short_circuits_witness :
  "custom.yaml" ≠ "" ∧
  explicit_path_exclusive RAISE decimal_int_of_str Some saas_api_to_dashboard_url
    [".gitguardian.yaml"] sample_global_path ["./.gitguardian.yaml"]
    "./.gitguardian.yaml" "custom.yaml".
Proof.
  split; [discriminate|].
  apply explicit_path_short_circuits. discriminate.
Defined.

(** With the empty string as explicit path, [load] falls back to discovery:
    it reads the local file and returns the local path. *)
Lemma explicit_empty_path_counterexample :
  ¬ explicit_path_exclusive RAISE decimal_int_of_str Some saas_api_to_dashboard_url
      [".gitguardian.yaml"] sample_global_path ["./.gitguardian.yaml"]
      "./.gitguardian.yaml" "".
Proof.
  intros [_ Honly].
  destruct (Honly
              (mkState UserConfig_default
                 {[ "./.gitguardian.yaml" := Yaml [("version", YInt 2)] ]} [])
              (mkState UserConfig_default ∅ []))
    as (_ & _ & Hpath).
  - vm_compute. reflexivity.
  - reflexivity.
  - specialize (Hpath UserConfig_default "./.gitguardian.yaml").
    assert (Hfalse : "./.gitguardian.yaml" = "") by (apply Hpath; vm_compute; reflexivity).
    discriminate Hfalse.
Qed.

(** With [version: true] the file is loaded as version 1: Python's [==]
    takes [True] for 1, nothing is raised and the accumulator changes. *)
Lemma version_true_counterexample :
  ¬ other_versions_are_fatal RAISE decimal_int_of_str Some saas_api_to_dashboard_url.
Proof.
  intros Hfatal.
  destruct (Hfatal ".gitguardian.yaml"
              (mkState UserConfig_default
                 {[ ".gitguardian.yaml" :=
                      Yaml [("version", YBool true); ("verbose", YBool true)] ]} [])
              [("version", YBool true); ("verbose", YBool true)] (YBool true))
    as (e & s' & Hrun & _).
  - vm_compute. reflexivity.
  - reflexivity.
  - discriminate.
  - discriminate.
  - vm_compute in Hrun. discriminate Hrun.
Qed.

Lemma load_v1_instance_witness :
  instance
    (mkUserConfig IaCConfig_default (Some "https://dashboard.gitguardian.com")
       false false false 50
       (mkSecretConfig false ∅ [mkIgnoredMatch "" "deadbeef"] ∅))
  = Some "https://dashboard.gitguardian.com" ∧
  ∃ w, ["api_url is deprecated, use instance instead."]
       = [] ++ ["api_url is deprecated, use instance instead."] ++ w.
Proof.
  apply (proj2 (proj1 (load_v1_instance RAISE decimal_int_of_str Some saas_api_to_dashboard_url
                         [("api_url", YStr "https://api.gitguardian.com");
                          ("matches_ignore", YList [YStr "deadbeef"])]
                         [] (YStr "https://api.gitguardian.com") eq_refl)
                  eq_refl "https://dashboard.gitguardian.com"
                  ["api_url is deprecated, use instance instead."] eq_refl)).
  vm_compute. reflexivity.
Defined.

Lemma load_v1_ignores_deprecated_flags_witness :
  mkUserConfig IaCConfig_default None false true false 50 SecretConfig_default
  = mkUserConfig IaCConfig_default None false true false 50 SecretConfig_default ∧
  iac (mkUserConfig IaCConfig_default None false true false 50 SecretConfig_default)
  = IaCConfig_default.
Proof.
  apply (load_v1_ignores_deprecated_flags RAISE decimal_int_of_str Some saas_api_to_dashboard_url
           [("all_policies", YBool true); ("verbose", YBool true);
            ("ignore_default_excludes", YBool true)]
           [("verbose", YBool true)] []
           _ _
           ["The `all_policies` option has been deprecated and is now ignored.";
            "The `ignore_default_exclude` option has been deprecated and is now ignored."]
           []).
  - intros key H1 H2. simpl.
    destruct (decide ("all_policies" = key)) as [<-|]; [done|].
    destruct (decide ("ignore_default_excludes" = key)) as [<-|]; done.
  - vm_compute. reflexivity.
  - vm_compute. reflexivity.
Defined.

Lemma save_load_roundtrip_witness :
  UserConfigSchema_load RAISE decimal_int_of_str Some
    (dict_del "version"
       (save_document
          (mkUserConfig (mkIaCConfig ∅ ∅ "HIGH") (Some "https://dashboard.example.com")
             false true false 50
             (mkSecretConfig false ∅ [mkIgnoredMatch "test" "deadbeef"] {["tests/"]}))
          UserConfig_default))
  = Ok (mkUserConfig (mkIaCConfig ∅ ∅ "HIGH") (Some "https://dashboard.example.com")
          false true false 50
          (mkSecretConfig false ∅ [mkIgnoredMatch "test" "deadbeef"] {["tests/"]})).
Proof.
  apply (save_load_roundtrip RAISE decimal_int_of_str Some saas_api_to_dashboard_url
           [("version", YInt 2);
            ("instance", YStr "https://dashboard.example.com");
            ("verbose", YBool true);
            ("exit_zero", YBool false);
            ("iac", YDict [("minimum_severity", YStr "HIGH"); ("ignored_paths", YList [])]);
            ("secret",
             YDict [("ignored_paths", YList [YStr "tests/"]);
                    ("ignored_matches",
                     YList [YDict [("name", YStr "test"); ("match", YStr "deadbeef")]])])]).
  - by intros m m' [= <-].
  - reflexivity.
  - vm_compute. reflexivity.
Defined.

(** Running the module on the documents of the specification. *)

Example load_v1_api_url :
  load_v1 RAISE decimal_int_of_str Some saas_api_to_dashboard_url
    [("api_url", YStr "https://api.gitguardian.com");
     ("matches_ignore", YList [YStr "deadbeef"])] []
  = (Ok (mkUserConfig IaCConfig_default (Some "https://dashboard.gitguardian.com")
           false false false 50
           (mkSecretConfig false ∅ [mkIgnoredMatch "" "deadbeef"] ∅)),
     ["api_url is deprecated, use instance instead."]).
Proof. vm_compute. reflexivity. Qed.

Example later_tier_replaces_ignored_paths :
  ignored_paths
    (secret
       (update_from_other_instance
          (update_from_other_instance UserConfig_default
             (mkUserConfig IaCConfig_default None false false false 50
                (mkSecretConfig false ∅ [] {["global/"]})))
          (mkUserConfig IaCConfig_default None false false false 50
             (mkSecretConfig false ∅ [] {["local/"]}))))
  = {["local/"]}.
Proof. reflexivity. Qed.

Example version_true_is_version_1 :
  (_update_from_file RAISE decimal_int_of_str Some saas_api_to_dashboard_url "cfg"
     (mkState UserConfig_default
        {[ "cfg" := Yaml [("version", YBool true); ("verbose", YBool true)] ]} [])).1
  = Ok tt.
Proof. vm_compute. reflexivity. Qed.

Example save_prunes_defaults :
  save_document
    (mkUserConfig IaCConfig_default None false true false 50
       (mkSecretConfig false ∅ [mkIgnoredMatch "test" "deadbeef"] ∅))
    UserConfig_default
  = [("verbose", YBool true);
     ("secret",
      YDict [("ignored_matches",
              YList [YDict [("name", YStr "test"); ("match", YStr "deadbeef")]])]);
     ("version", YInt 2)].
Proof. vm_compute. reflexivity. Qed.

(** * The further properties on concrete documents *)

Lemma add_ignored_matches_unique_witness :
  unique_matches
    (ignored_matches
       (foldl add_ignored_match SecretConfig_default
          [mkIgnoredMatch "" "deadbeef"; mkIgnoredMatch "x" "deadbeef";
           mkIgnoredMatch "y" "cafe"])).
Proof.
  apply (add_ignored_matches_unique SecretConfig_default
           [mkIgnoredMatch "" "deadbeef"; mkIgnoredMatch "x" "deadbeef";
            mkIgnoredMatch "y" "cafe"]).
  apply NoDup_nil_2.
Defined.

Lemma update_matches_ignore_idempotent_witness :
  update_matches_ignore
    [("matches_ignore", YList [YDict [("name", YStr ""); ("match", YStr "deadbeef")]])]
  = Ok [("matches_ignore", YList [YDict [("name", YStr ""); ("match", YStr "deadbeef")]])].
Proof.
  apply (update_matches_ignore_idempotent [("matches_ignore", YList [YStr "deadbeef"])]).
  reflexivity.
Defined.

Lemma load_v1_bare_hashes_witness :
  Forall2 (λ hash m, Some (mkIgnoredMatch "" hash) = Some m)
    ["deadbeef"; "cafe"]
    [mkIgnoredMatch "" "deadbeef"; mkIgnoredMatch "" "cafe"].
Proof.
  apply (load_v1_bare_hashes RAISE decimal_int_of_str Some saas_api_to_dashboard_url
           [("matches_ignore", YList [YStr "deadbeef"; YStr "cafe"])] []
           ["deadbeef"; "cafe"]
           (mkUserConfig IaCConfig_default None false false false 50
              (mkSecretConfig false ∅
                 [mkIgnoredMatch "" "deadbeef"; mkIgnoredMatch "" "cafe"] ∅))
           []).
  - reflexivity.
  - vm_compute. reflexivity.
Defined.


Lemma load_v1_field_map_witness :
  load_field "paths_ignore" load_Set_String ∅
    [("paths_ignore", YList [YStr "tests/"]); ("banlisted_detectors", YList [YStr "Generic"]);
     ("show_secrets", YBool true)]
  = Ok {["tests/"]}.
Proof.
  destruct (load_v1_field_map RAISE decimal_int_of_str Some saas_api_to_dashboard_url
              [("paths_ignore", YList [YStr "tests/"]);
               ("banlisted_detectors", YList [YStr "Generic"]);
               ("show_secrets", YBool true)] []
              (mkUserConfig IaCConfig_default None false false false 50
                 (mkSecretConfig true {["Generic"]} [] {["tests/"]}))
              [])
    as (_ & _ & _ & _ & _ & _ & Hpaths).
  - vm_compute. reflexivity.
  - exact Hpaths.
Defined.

Lemma load_v1_warnings_witness :
  ∃ b1 b2,
    load_field "all_policies" load_Boolean false
      [("all_policies", YBool true); ("verbose", YBool true)] = Ok b1 ∧
    load_field "ignore_default_excludes" load_Boolean false
      [("all_policies", YBool true); ("verbose", YBool true)] = Ok b2 ∧
    [all_policies_warning]
    = [] ++ [] ++ (if b1 then [all_policies_warning] else [])
         ++ (if b2 then [ignore_default_excludes_warning] else []).
Proof.
  apply (load_v1_warnings RAISE decimal_int_of_str Some saas_api_to_dashboard_url
           [("all_policies", YBool true); ("verbose", YBool true)] []
           (mkUserConfig IaCConfig_default None false true false 50 SecretConfig_default)
           [all_policies_warning]).
  vm_compute. reflexivity.
Defined.

Lemma version_2_validates_witness :
  _update_from_file RAISE decimal_int_of_str Some saas_api_to_dashboard_url
    ".gitguardian.yaml"
    (mkState UserConfig_default
       {[ ".gitguardian.yaml" :=
            Yaml [("version", YInt 2); ("verbose", YStr "yes");
                  ("max_commits_for_hook", YStr "20")] ]} [])
  = (Ok tt,
     mkState (mkUserConfig IaCConfig_default None false true false 20 SecretConfig_default)
       {[ ".gitguardian.yaml" :=
            Yaml [("version", YInt 2); ("verbose", YStr "yes");
                  ("max_commits_for_hook", YStr "20")] ]} []) ∧
  _update_from_file RAISE decimal_int_of_str Some saas_api_to_dashboard_url
    ".gitguardian.yaml"
    (mkState UserConfig_default
       {[ ".gitguardian.yaml" := Yaml [("version", YInt 2); ("verbose", YStr "maybe")] ]} [])
  = (Raise (ParseError ".gitguardian.yaml" ["verbose"]),
     mkState UserConfig_default
       {[ ".gitguardian.yaml" := Yaml [("version", YInt 2); ("verbose", YStr "maybe")] ]} []).
Proof.
  split.
  - rewrite (version_2_validates RAISE decimal_int_of_str Some saas_api_to_dashboard_url
               ".gitguardian.yaml" _
               [("version", YInt 2); ("verbose", YStr "yes");
                ("max_commits_for_hook", YStr "20")] (YInt 2)).
    + vm_compute. reflexivity.
    + vm_compute. reflexivity.
    + reflexivity.
    + reflexivity.
  - rewrite (version_2_validates RAISE decimal_int_of_str Some saas_api_to_dashboard_url
               ".gitguardian.yaml" _
               [("version", YInt 2); ("verbose", YStr "maybe")] (YInt 2)).
    + vm_compute. reflexivity.
    + vm_compute. reflexivity.
    + reflexivity.
    + reflexivity.
Defined.

Lemma load_nothing_to_discover_witness :
  load RAISE decimal_int_of_str Some saas_api_to_dashboard_url
    [".gitguardian.yaml"] sample_global_path ["./.gitguardian.yaml"] "./.gitguardian.yaml"
    (Some "") (mkState UserConfig_default ∅ [])
  = (Ok (UserConfig_default, ""), mkState UserConfig_default ∅ []).
Proof.
  apply (load_nothing_to_discover RAISE decimal_int_of_str Some saas_api_to_dashboard_url
           [".gitguardian.yaml"] sample_global_path ["./.gitguardian.yaml"]
           "./.gitguardian.yaml" (Some "") (mkState UserConfig_default ∅ [])).
  - reflexivity.
  - repeat constructor.
  - repeat constructor.
Defined.

Lemma load_discovery_witness :
  load RAISE decimal_int_of_str Some saas_api_to_dashboard_url
    [".gitguardian"; ".gitguardian.yaml"] sample_global_path ["./.gitguardian.yaml"]
    "./.gitguardian.yaml" None
    (mkState UserConfig_default
       {[ "~/.gitguardian.yaml" := Yaml [("version", YInt 2); ("verbose", YBool true)] ]} [])
  = (Ok (mkUserConfig IaCConfig_default None false true false 50 SecretConfig_default,
         "./.gitguardian.yaml"),
     mkState (mkUserConfig IaCConfig_default None false true false 50 SecretConfig_default)
       {[ "~/.gitguardian.yaml" := Yaml [("version", YInt 2); ("verbose", YBool true)] ]} []).
Proof.
  rewrite (load_discovery RAISE decimal_int_of_str Some saas_api_to_dashboard_url
             [".gitguardian"; ".gitguardian.yaml"] sample_global_path
             ["./.gitguardian.yaml"] "./.gitguardian.yaml" None _ eq_refl).
  vm_compute. reflexivity.
Defined.

Lemma load_global_error_aborts_witness :
  load RAISE decimal_int_of_str Some saas_api_to_dashboard_url
    [".gitguardian.yaml"] sample_global_path ["./.gitguardian.yaml"] "./.gitguardian.yaml"
    None
    (mkState UserConfig_default
       {[ "~/.gitguardian.yaml" := InvalidSyntax;
          "./.gitguardian.yaml" := Yaml [("verbose", YBool true)] ]} [])
  = (Raise (ParseError "~/.gitguardian.yaml" []),
     mkState UserConfig_default
       {[ "~/.gitguardian.yaml" := InvalidSyntax;
          "./.gitguardian.yaml" := Yaml [("verbose", YBool true)] ]} []).
Proof.
  apply (load_global_error_aborts RAISE decimal_int_of_str Some saas_api_to_dashboard_url
           [".gitguardian.yaml"] sample_global_path ["./.gitguardian.yaml"]
           "./.gitguardian.yaml" None _ "~/.gitguardian.yaml").
  - reflexivity.
  - vm_compute. reflexivity.
  - vm_compute. reflexivity.
Defined.

Lemma config_update_migrates_witness :
  ∃ s2,
    config_update_cmd RAISE decimal_int_of_str Some
      (mkConfig (mkUserConfig IaCConfig_default None false true false 50
                   (mkSecretConfig false ∅ [mkIgnoredMatch "" "deadbeef"] ∅))
         ".gitguardian.yaml")
      (mkState (mkUserConfig IaCConfig_default None false true false 50
                  (mkSecretConfig false ∅ [mkIgnoredMatch "" "deadbeef"] ∅))
         {[ ".gitguardian.yaml" :=
              Yaml [("verbose", YBool true); ("matches_ignore", YList [YStr "deadbeef"])] ]}
         [deprecated_format_warning ".gitguardian.yaml"])
    = (Ok tt, s2) ∧
    ∃ dct, st_files s2 !! ".gitguardian.yaml" = Some (Yaml dct) ∧
           dict_get "version" dct = Some (YInt 2).
Proof.
  destruct (config_update_migrates RAISE decimal_int_of_str Some saas_api_to_dashboard_url
              [".gitguardian.yaml"] sample_global_path ["./.gitguardian.yaml"]
              "./.gitguardian.yaml" ".gitguardian.yaml"
              (mkState UserConfig_default
                 {[ ".gitguardian.yaml" :=
                      Yaml [("verbose", YBool true);
                            ("matches_ignore", YList [YStr "deadbeef"])] ]} [])
              (mkState (mkUserConfig IaCConfig_default None false true false 50
                          (mkSecretConfig false ∅ [mkIgnoredMatch "" "deadbeef"] ∅))
                 {[ ".gitguardian.yaml" :=
                      Yaml [("verbose", YBool true);
                            ("matches_ignore", YList [YStr "deadbeef"])] ]}
                 [deprecated_format_warning ".gitguardian.yaml"])
              (mkUserConfig IaCConfig_default None false true false 50
                 (mkSecretConfig false ∅ [mkIgnoredMatch "" "deadbeef"] ∅)))
    as (s2 & Hrun & Hversion & _).
  - by intros m m' [= <-].
  - discriminate.
  - vm_compute. reflexivity.
  - exists s2. split; [exact Hrun | exact Hversion].
Defined.
